(** * LexicalEvents: input-event normalisation and command dispatch

    A shallow embedding of the event module of the Lexical editor core:
    the keyboard and [beforeinput] translation tables, the composition
    handlers, the click work-around, the arbitration of
    [selectionchange] between nested editors and the registration and
    removal of the listeners of a root element.

    The handlers are written in a small state + log + exception monad
    over an explicit [World].  What the module imports from files that
    are not modelled here comes in two ways: the constants of the
    environment, the key predicates and the node and selection queries
    are members of the interfaces [Environment], [KeyPredicates] and
    [Engine]; the editor object ([update], the composition key, the
    selection) and [getEditorsToPropagate] are modelled from the
    specification. *)

From Stdlib Require Import ZArith List Bool.
From stdpp Require Import base decidable option list strings gmap functions.

Local Open Scope Z_scope.
Local Open Scope string_scope.
Local Open Scope list_scope.

(** ** JavaScript values *)

(** A property that may be [undefined], [null] or hold an object. *)
Inductive JSField (A : Type) : Type :=
| Undefined
| Null
| Val (a : A).
Arguments Undefined {A}.
Arguments Null {A}.
Arguments Val {A} a.

(** The one-character string ["\n"]. *)
Definition newline : string := String (Ascii.ascii_of_nat 10) EmptyString.

(** ** Editors

    An editor object.  [_key] and [_parentEditor] are never written by
    this module, so they are kept in the reference itself; [uid] stands
    for the address of the object, so that two editors that agree on
    every field are still different objects.  Parent links form a strict
    hierarchy (never cyclic), which the inductive type states.  The
    mutable fields of an editor live in the [World]. *)
#[local] Unset Elimination Schemes.
Inductive LexicalEditor : Type :=
| Editor (uid : nat) (key : string) (parent : option LexicalEditor).
#[local] Set Elimination Schemes.

Definition _key (e : LexicalEditor) : string :=
  match e with Editor _ k _ => k end.

Definition _parentEditor (e : LexicalEditor) : option LexicalEditor :=
  match e with Editor _ _ p => p end.

(** Object identity [a === b] of two editor references. *)
#[global] Instance LexicalEditor_eq_dec : EqDecision LexicalEditor.
Proof.
  refine (fix go (a b : LexicalEditor) {struct a} : Decision (a = b) :=
            match a, b with
            | Editor u k p, Editor u' k' p' =>
                cast_if_and3
                  (decide (u = u')) (decide (k = k'))
                  (match p, p' return Decision (p = p') with
                   | None, None => left eq_refl
                   | Some x, Some y => cast_if (go x y)
                   | _, _ => right _
                   end)
            end); abstract congruence.
Defined.

(** Modelled from the spec: [getEditorsToPropagate] of LexicalUtils is not
    part of the analysed sources.  "Compute its root ancestor (walk
    parent-editor links to the top)": the editor itself followed by its
    chain of parents, the root editor last. *)
Fixpoint getEditorsToPropagate (editor : LexicalEditor) : list LexicalEditor :=
  match editor with
  | Editor _ _ p =>
      editor :: match p with
                | Some parent => getEditorsToPropagate parent
                | None => []
                end
  end.

(** [editors[editors.length - 1]] for [editors = getEditorsToPropagate editor]. *)
Definition rootEditorOf (editor : LexicalEditor) : LexicalEditor :=
  List.last (getEditorsToPropagate editor) editor.

(** ** Selections *)

Inductive PointType : Type := text | element.

#[global] Instance PointType_eq_dec : EqDecision PointType.
Proof. solve_decision. Defined.

Record Point : Type := mkPoint {
  key : string;
  offset : nat;
  type : PointType;
}.

Record RangeSelection : Type := mkRangeSelection {
  anchor : Point;
  focus : Point;
  dirty : bool;
  format : Z;
}.

Definition with_format (f : Z) (s : RangeSelection) : RangeSelection :=
  {| anchor := anchor s; focus := focus s; dirty := dirty s; format := f |}.

Definition with_dirty (d : bool) (s : RangeSelection) : RangeSelection :=
  {| anchor := anchor s; focus := focus s; dirty := d; format := format s |}.

(** ** Raw platform events *)

(** A DOM [StaticRange], as returned by [getTargetRanges]. *)
Record StaticRange : Type := mkStaticRange {
  startContainer : nat;
  startOffset : nat;
  endContainer : nat;
  endOffset : nat;
}.

(** The fields of the raw event objects that the handlers read.
    [data] is [None] for [null]/[undefined]; [dataTransfer] holds the
    ['text/plain'] data of the transfer object when there is one;
    [getTargetRanges] is [None] when the method does not exist. *)
Record Event : Type := mkEvent {
  event_type : string;
  event_key : string;
  keyCode : Z;
  shiftKey : bool;
  ctrlKey : bool;
  metaKey : bool;
  altKey : bool;
  inputType : string;
  data : option string;
  dataTransfer : option string;
  getTargetRanges : option (list StaticRange);
}.

(** ** Interfaces of the imported modules *)

(** [shared/environment]. *)
Class Environment : Type := {
  CAN_USE_BEFORE_INPUT : bool;
  IS_FIREFOX : bool;
}.

(** The key predicates of LexicalUtils, with the argument order of
    their call sites in [onKeyDown]. *)
Class KeyPredicates : Type := {
  isMoveForward : Z -> bool -> bool -> bool -> bool -> bool;
  isMoveBackward : Z -> bool -> bool -> bool -> bool -> bool;
  isMoveUp : Z -> bool -> bool -> bool -> bool -> bool;
  isMoveDown : Z -> bool -> bool -> bool -> bool -> bool;
  isLineBreak : Z -> bool -> bool;
  isOpenLineBreak : Z -> bool -> bool;
  isParagraph : Z -> bool -> bool;
  isDeleteBackward : Z -> bool -> bool -> bool -> bool;
  isBackspace : Z -> bool;
  isEscape : Z -> bool;
  isDeleteForward : Z -> bool -> bool -> bool -> bool -> bool;
  isDelete : Z -> bool;
  isDeleteWordBackward : Z -> bool -> bool -> bool;
  isDeleteWordForward : Z -> bool -> bool -> bool;
  isDeleteLineBackward : Z -> bool -> bool;
  isDeleteLineForward : Z -> bool -> bool;
  isBold : Z -> bool -> bool -> bool;
  isUnderline : Z -> bool -> bool -> bool;
  isItalic : Z -> bool -> bool -> bool;
  isTab : Z -> bool -> bool -> bool -> bool;
  isUndo : Z -> bool -> bool -> bool -> bool;
  isRedo : Z -> bool -> bool -> bool -> bool;
}.

(** The node and selection queries of the editing engine.  [NodeMap] is
    the node tree of an editor state; a query made inside
    [editor.update] reads the tree of that editor.  [getNode] is total,
    as the Flow type of [point.getNode()] says ([TextNode | ElementNode]). *)
Class Engine : Type := {
  LexicalNode : Type;
  LexicalNode_eq_dec :: EqDecision LexicalNode;
  NodeMap : Type;
  (** [point.getNode()] *)
  getNode : NodeMap -> Point -> LexicalNode;
  isElementNode : LexicalNode -> bool;
  isRootNode : LexicalNode -> bool;
  isTokenOrInert : LexicalNode -> bool;
  getFormat : LexicalNode -> Z;
  (** [node.getTopLevelElementOrThrow()]; [None] when it throws *)
  getTopLevelElementOrThrow : NodeMap -> LexicalNode -> option LexicalNode;
  isEmpty : NodeMap -> LexicalNode -> bool;
  (** [$getRoot().getChildrenSize()] *)
  rootChildrenSize : NodeMap -> nat;
  isCollapsed : RangeSelection -> bool;
  (** [selection.is(other)] *)
  selection_is : RangeSelection -> RangeSelection -> bool;
  shouldPreventDefaultAndInsertText :
    NodeMap -> RangeSelection -> string -> bool -> bool;
  (** the selection after [selection.applyDOMRange(range)] *)
  applyDOMRange : NodeMap -> RangeSelection -> StaticRange -> RangeSelection;
}.

(** ** Observable calls

    The calls a handler makes on the raw event, on the platform and on
    the editing engine, in the order in which it makes them. *)

Inductive Payload : Type :=
| NoPayload
| PBool (b : bool)
| PString (s : string)
| PEvent (event : Event).

Inductive Effect : Type :=
| Update (editor : LexicalEditor)
    (** [editor.update(fn)]: [fn] starts to run *)
| ExecCommand (editor : LexicalEditor) (type : string) (payload : Payload)
| PreventDefault (event : Event)
| StopPropagation (event : Event)
| SetCompositionKey (editor : LexicalEditor) (compositionKey : option string)
| SetSelection (editor : LexicalEditor) (selection : option RangeSelection)
| ApplyDOMRange (editor : LexicalEditor) (range : StaticRange)
| InsertRawText (editor : LexicalEditor) (text : string)
| UpdateSelectedTextFromDOM (editor : LexicalEditor) (isCompositionEnd : bool)
| FlushMutations (editor : LexicalEditor)
| RemoveAllRanges.

(** The commands of a log, in order. *)
Definition commands (log : list Effect) : list (string * Payload) :=
  omap (fun e => match e with
                 | ExecCommand _ t p => Some (t, p)
                 | _ => None
                 end) log.

(** ** The listener table and the surface *)

Inductive HandlerName : Type :=
| KeyDown | CompositionStart | CompositionEnd | Input | Click | BeforeInput.

(** The second component of an entry of [rootElementEvents]: a handler
    function or the frozen marker object. *)
Inductive OnEvent : Type :=
| Fn (f : HandlerName)
| PASS_THROUGH_COMMAND.

(** The arrow function [eventHandler] made by one iteration of the loop of
    [addRootElementEvents]; [l_closure] is the identity of the function
    object, the other fields are what it captures. *)
Record Listener : Type := mkListener {
  l_eventName : string;
  l_closure : nat;
  l_onEvent : OnEvent;
  l_editor : LexicalEditor;
}.

(** The arrow function pushed on [removeHandles]:
    [() => rootElement.removeEventListener(eventName, eventHandler)]. *)
Record RemoveHandle : Type := mkRemoveHandle {
  rh_rootElement : nat;
  rh_eventName : string;
  rh_eventHandler : nat;
}.

Record HTMLElement : Type := mkHTMLElement {
  contentEditable : string;
  ownerDocument : nat;
  __lexicalEditor : JSField LexicalEditor;
  (** [None] is [undefined] *)
  _lexicalEventHandles : option (list RemoveHandle);
  (** the event listener list of the element, in registration order *)
  listeners : list Listener;
}.

Record Document : Type := mkDocument {
  (** [false] is [undefined] *)
  _lexicalEvent : bool;
  (** whether [onDocumentSelectionChange] listens to ['selectionchange'] *)
  selectionchange : bool;
}.

(** A callback waiting in the timer queue: the arrow function given to
    [setTimeout] by [onCompositionEnd]. *)
Inductive Task : Type :=
| CompositionEndTask (event : Event) (editor : LexicalEditor).

Inductive Result (A : Type) : Type :=
| Ok (a : A)
| Throw (error : string).
Arguments Ok {A} a.
Arguments Throw {A} error.

Section LexicalEvents.
Context {env : Environment} {keys : KeyPredicates} {engine : Engine}.

(** ** The world *)

(** The mutable fields of an editor object.  [selection] is what
    [$getSelection()] returns inside an update of the editor (the
    selection of the pending editor state); [_selection] is
    [editor.getEditorState()._selection], the selection of the state
    committed last. *)
Record EditorObj : Type := mkEditorObj {
  nodes : NodeMap;
  selection : option RangeSelection;
  _selection : option RangeSelection;
  _compositionKey : option string;
  _rootElement : option nat;
}.

(** The module-level variables ([lastKeyWasMaybeAndroidSoftKey],
    [activeNestedEditorsMap]), the heap of editor objects, DOM elements
    and documents, the timer queue of the event loop and the number of
    function objects made so far. *)
Record World : Type := mkWorld {
  lastKeyWasMaybeAndroidSoftKey : bool;
  activeNestedEditorsMap : gmap string LexicalEditor;
  editorObj : LexicalEditor -> EditorObj;
  elementObj : nat -> HTMLElement;
  documentObj : nat -> Document;
  timers : list Task;
  closures : nat;
}.

Definition set_lastKey (b : bool) (w : World) : World :=
  mkWorld b (activeNestedEditorsMap w) (editorObj w) (elementObj w)
          (documentObj w) (timers w) (closures w).

Definition set_map (m : gmap string LexicalEditor) (w : World) : World :=
  mkWorld (lastKeyWasMaybeAndroidSoftKey w) m (editorObj w) (elementObj w)
          (documentObj w) (timers w) (closures w).

Definition set_editor (e : LexicalEditor) (o : EditorObj) (w : World) : World :=
  mkWorld (lastKeyWasMaybeAndroidSoftKey w) (activeNestedEditorsMap w)
          (<[e := o]> (editorObj w)) (elementObj w)
          (documentObj w) (timers w) (closures w).

Definition set_element (r : nat) (o : HTMLElement) (w : World) : World :=
  mkWorld (lastKeyWasMaybeAndroidSoftKey w) (activeNestedEditorsMap w)
          (editorObj w) (<[r := o]> (elementObj w))
          (documentObj w) (timers w) (closures w).

Definition set_document (d : nat) (o : Document) (w : World) : World :=
  mkWorld (lastKeyWasMaybeAndroidSoftKey w) (activeNestedEditorsMap w)
          (editorObj w) (elementObj w)
          (<[d := o]> (documentObj w)) (timers w) (closures w).

Definition set_timers (q : list Task) (w : World) : World :=
  mkWorld (lastKeyWasMaybeAndroidSoftKey w) (activeNestedEditorsMap w)
          (editorObj w) (elementObj w) (documentObj w) q (closures w).

Definition set_closures (n : nat) (w : World) : World :=
  mkWorld (lastKeyWasMaybeAndroidSoftKey w) (activeNestedEditorsMap w)
          (editorObj w) (elementObj w) (documentObj w) (timers w) n.

(** ** The monad

    A computation reads and writes the world, appends to the log of
    observable calls and may throw.  A throw keeps the writes and the
    log made before it, as a JavaScript exception does. *)

Record Outcome (A : Type) : Type := mkOutcome {
  result : Result A;
  world : World;
  effects : list Effect;
}.
#[global] Arguments mkOutcome {A} _ _ _.
#[global] Arguments result {A} _.
#[global] Arguments world {A} _.
#[global] Arguments effects {A} _.

Definition M (A : Type) : Type := World -> Outcome A.

Definition ret {A} (a : A) : M A := fun w => mkOutcome (Ok a) w [].

Definition bind {A B} (m : M A) (k : A -> M B) : M B :=
  fun w =>
    match m w with
    | mkOutcome (Ok a) w1 log1 =>
        match k a w1 with
        | mkOutcome r w2 log2 => mkOutcome r w2 (log1 ++ log2)
        end
    | mkOutcome (Throw err) w1 log1 => mkOutcome (Throw err) w1 log1
    end.

Definition throw {A} (err : string) : M A := fun w => mkOutcome (Throw err) w [].
Definition gets {A} (f : World -> A) : M A := fun w => mkOutcome (Ok (f w)) w [].
Definition modify (f : World -> World) : M unit := fun w => mkOutcome (Ok tt) (f w) [].
Definition call (e : Effect) : M unit := fun w => mkOutcome (Ok tt) w [e].

Definition when (b : bool) (m : M unit) : M unit := if b then m else ret tt.

(** [for (let i = 0; i < l.length; i++) body(l[i])] *)
Fixpoint for_each {A} (l : list A) (body : A -> M unit) : M unit :=
  match l with
  | [] => ret tt
  | x :: l' => bind (body x) (fun _ => for_each l' body)
  end.

#[global] Instance M_ret : MRet M := @ret.
#[global] Instance M_bind : MBind M := fun A B k m => bind m k.

(** A listener that throws does not stop the listeners after it: the
    platform reports the exception and goes on. *)
Definition reportError (m : M unit) : M unit :=
  fun w => match m w with mkOutcome _ w1 log1 => mkOutcome (Ok tt) w1 log1 end.

(** ** The engine calls of the handlers

    Modelled from the spec: the editor object and the [$]-functions are
    not part of the analysed sources.  [update] "runs a function inside
    a transactional batch" to completion; the editor is composing when a
    composition key is recorded ([Idle -> Composing] "records the anchor
    node as the composition key", [Composing -> Idle] "clears the
    composition key"); [$setSelection] and [$getSelection] write and read
    the selection of the editor that is being updated. *)

Definition update (editor : LexicalEditor) (fn : M unit) : M unit :=
  call (Update editor) ;; fn.

Definition execCommand (editor : LexicalEditor) (type : string) (payload : Payload)
  : M unit :=
  call (ExecCommand editor type payload).

Definition isComposing (editor : LexicalEditor) : M bool :=
  gets (fun w => bool_decide (_compositionKey (editorObj w editor) ≠ None)).

Definition getNodes (editor : LexicalEditor) : M NodeMap :=
  gets (fun w => nodes (editorObj w editor)).

Definition getSelection (editor : LexicalEditor) : M (option RangeSelection) :=
  gets (fun w => selection (editorObj w editor)).

Definition write_selection (editor : LexicalEditor) (s : option RangeSelection)
  : M unit :=
  modify (fun w =>
    let o := editorObj w editor in
    set_editor editor
      (mkEditorObj (nodes o) s (_selection o) (_compositionKey o) (_rootElement o)) w).

Definition setSelection (editor : LexicalEditor) (s : option RangeSelection)
  : M unit :=
  call (SetSelection editor s) ;; write_selection editor s.

Definition setCompositionKey (editor : LexicalEditor) (compositionKey : option string)
  : M unit :=
  call (SetCompositionKey editor compositionKey) ;;
  modify (fun w =>
    let o := editorObj w editor in
    set_editor editor
      (mkEditorObj (nodes o) (selection o) (_selection o) compositionKey
                   (_rootElement o)) w).

Definition updateSelectedTextFromDOM (editor : LexicalEditor) (compositionEnd : bool)
  : M unit :=
  call (UpdateSelectedTextFromDOM editor compositionEnd).

Definition flushMutations (editor : LexicalEditor) : M unit :=
  call (FlushMutations editor).

(** ** Selection change of one editor *)

Definition onSelectionChange (editor : LexicalEditor) (isActive : bool) : M unit :=
  update editor (
    if negb isActive then
      setSelection editor None
    else
      selection ← getSelection editor;
      nodes ← getNodes editor;
      match selection with
      | Some sel =>
          if isCollapsed sel then
            let anchor := anchor sel in
            match type anchor with
            | text =>
                let anchorNode := getNode nodes anchor in
                write_selection editor (Some (with_format (getFormat anchorNode) sel))
            | element =>
                write_selection editor (Some (with_format 0 sel))
            end
          else ret tt
      | None => ret tt
      end ;;
      execCommand editor "selectionChange" NoPayload).

(** ** Click *)

Definition onClick (event : Event) (editor : LexicalEditor) : M unit :=
  update editor (
    selection ← getSelection editor;
    match selection with
    | None => ret tt
    | Some sel =>
        let anchor := anchor sel in
        nodes ← getNodes editor;
        emptyBlock ←
          (if bool_decide (type anchor = element) &&
              Nat.eqb (offset anchor) 0 &&
              isCollapsed sel &&
              Nat.eqb (rootChildrenSize nodes) 1
           then
             match getTopLevelElementOrThrow nodes (getNode nodes anchor) with
             | Some top => ret (isEmpty nodes top)
             | None => throw "getTopLevelElementOrThrow"
             end
           else ret false);
        if emptyBlock : bool then
          lastSelection ← gets (fun w => _selection (editorObj w editor));
          match lastSelection with
          | Some last =>
              if selection_is sel last then
                call RemoveAllRanges ;;
                write_selection editor (Some (with_dirty true sel))
              else ret tt
          | None => ret tt
          end
        else ret tt
    end).

(** ** Pre-commit input events *)

(** [$applyTargetRange]; the result is the selection object after the
    call, which is also what [$getSelection()] then holds. *)
Definition applyTargetRange (editor : LexicalEditor) (sel : RangeSelection)
    (event : Event) : M RangeSelection :=
  match getTargetRanges event with
  | Some (targetRange :: _) =>
      nodes ← getNodes editor;
      let sel' := applyDOMRange nodes sel targetRange in
      call (ApplyDOMRange editor targetRange) ;;
      write_selection editor (Some sel') ;;
      ret sel'
  | _ => ret sel
  end.

(** [$canRemoveText] *)
Definition canRemoveText (anchorNode focusNode : LexicalNode) : bool :=
  bool_decide (anchorNode ≠ focusNode) ||
  isElementNode anchorNode ||
  isElementNode focusNode ||
  negb (isTokenOrInert anchorNode) ||
  negb (isTokenOrInert focusNode).

(** The [switch (inputType)] of [onBeforeInput]. *)
Definition beforeInputSwitch (event : Event) (editor : LexicalEditor)
    (anchorNode focusNode : LexicalNode) : M unit :=
  let inputType := inputType event in
  if (inputType =? "insertFromYank")%string ||
     (inputType =? "insertFromDrop")%string ||
     (inputType =? "insertReplacementText")%string then
    execCommand editor "insertText" (PEvent event)
  else if (inputType =? "insertFromComposition")%string then
    setCompositionKey editor None ;;
    execCommand editor "insertText" (PEvent event)
  else if (inputType =? "insertLineBreak")%string then
    setCompositionKey editor None ;;
    execCommand editor "insertLineBreak" NoPayload
  else if (inputType =? "insertParagraph")%string then
    setCompositionKey editor None ;;
    execCommand editor "insertParagraph" NoPayload
  else if (inputType =? "insertFromPaste")%string ||
          (inputType =? "insertFromPasteAsQuotation")%string then
    execCommand editor "paste" (PEvent event)
  else if (inputType =? "deleteByComposition")%string then
    when (canRemoveText anchorNode focusNode)
         (execCommand editor "removeText" NoPayload)
  else if (inputType =? "deleteByDrag")%string ||
          (inputType =? "deleteByCut")%string then
    execCommand editor "removeText" NoPayload
  else if (inputType =? "deleteContent")%string then
    execCommand editor "deleteCharacter" (PBool false)
  else if (inputType =? "deleteWordBackward")%string then
    execCommand editor "deleteWord" (PBool true)
  else if (inputType =? "deleteWordForward")%string then
    execCommand editor "deleteWord" (PBool false)
  else if (inputType =? "deleteHardLineBackward")%string ||
          (inputType =? "deleteSoftLineBackward")%string then
    execCommand editor "deleteLine" (PBool true)
  else if (inputType =? "deleteContentForward")%string ||
          (inputType =? "deleteHardLineForward")%string ||
          (inputType =? "deleteSoftLineForward")%string then
    execCommand editor "deleteLine" (PBool false)
  else if (inputType =? "formatStrikeThrough")%string then
    execCommand editor "formatText" (PString "strikethrough")
  else if (inputType =? "formatBold")%string then
    execCommand editor "formatText" (PString "bold")
  else if (inputType =? "formatItalic")%string then
    execCommand editor "formatText" (PString "italic")
  else if (inputType =? "formatUnderline")%string then
    execCommand editor "formatText" (PString "underline")
  else if (inputType =? "historyUndo")%string then
    execCommand editor "undo" NoPayload
  else if (inputType =? "historyRedo")%string then
    execCommand editor "redo" NoPayload
  else
    ret tt.

Definition onBeforeInput (event : Event) (editor : LexicalEditor) : M unit :=
  let inputType := inputType event in
  if (inputType =? "deleteCompositionText")%string ||
     (inputType =? "insertCompositionText")%string then
    ret tt
  else
    update editor (
      selection ← getSelection editor;
      match selection with
      | None => ret tt
      | Some sel =>
          if (inputType =? "deleteContentBackward")%string then
            setCompositionKey editor None ;;
            call (PreventDefault event) ;;
            execCommand editor "deleteCharacter" (PBool true)
          else
            let data := data event in
            nodes ← getNodes editor;
            sel ← (if negb (dirty sel) &&
                      isCollapsed sel &&
                      negb (isRootNode (getNode nodes (anchor sel)))
                   then applyTargetRange editor sel event
                   else ret sel);
            let anchor := anchor sel in
            let focus := focus sel in
            let anchorNode := getNode nodes anchor in
            let focusNode := getNode nodes focus in
            if (inputType =? "insertText")%string then
              match data with
              | Some d =>
                  if (d =? newline)%string then
                    call (PreventDefault event) ;;
                    execCommand editor "insertLineBreak" NoPayload
                  else if (d =? newline +:+ newline)%string then
                    call (PreventDefault event) ;;
                    execCommand editor "insertParagraph" NoPayload
                  else if shouldPreventDefaultAndInsertText nodes sel d true then
                    call (PreventDefault event) ;;
                    execCommand editor "insertText" (PString d)
                  else ret tt
              | None =>
                  match dataTransfer event with
                  | Some rawText =>
                      call (PreventDefault event) ;;
                      call (InsertRawText editor rawText)
                  | None => ret tt
                  end
              end
            else
              call (PreventDefault event) ;;
              beforeInputSwitch event editor anchorNode focusNode
      end).

(** ** Input *)

Definition onInput (event : Event) (editor : LexicalEditor) : M unit :=
  call (StopPropagation event) ;;
  update editor (
    selection ← getSelection editor;
    let data := data event in
    nodes ← getNodes editor;
    match data, selection with
    | Some d, Some sel =>
        if shouldPreventDefaultAndInsertText nodes sel d false then
          execCommand editor "insertText" (PString d)
        else
          updateSelectedTextFromDOM editor false
    | _, _ => updateSelectedTextFromDOM editor false
    end ;;
    flushMutations editor).

(** ** Composition *)

Definition onCompositionStart (event : Event) (editor : LexicalEditor) : M unit :=
  update editor (
    selection ← getSelection editor;
    composing ← isComposing editor;
    match selection with
    | Some sel =>
        if negb composing then
          let anchor := anchor sel in
          setCompositionKey editor (Some (key anchor)) ;;
          softKey ← gets lastKeyWasMaybeAndroidSoftKey;
          when (negb softKey ||
                bool_decide (type anchor = element) ||
                negb (isCollapsed sel))
               (execCommand editor "insertText" (PString " "))
        else ret tt
    | None => ret tt
    end).

Definition onCompositionEndInternal (event : Event) (editor : LexicalEditor)
  : M unit :=
  update editor (
    setCompositionKey editor None ;;
    updateSelectedTextFromDOM editor true).

(** [setTimeout(fn, 0)]: the callback joins the timer queue; the event
    loop runs it in a later turn. *)
Definition setTimeout (task : Task) : M unit :=
  modify (fun w => set_timers (timers w ++ [task]) w).

Definition onCompositionEnd (event : Event) (editor : LexicalEditor) : M unit :=
  if IS_FIREFOX then
    setTimeout (CompositionEndTask event editor)
  else
    onCompositionEndInternal event editor.

(** ** Key down *)

Definition updateAndroidSoftKeyFlagIfAny (event : Event) : M unit :=
  modify (set_lastKey ((event_key event =? "Unidentified")%string &&
                       (keyCode event =? 229)%Z)).

Definition onKeyDown (event : Event) (editor : LexicalEditor) : M unit :=
  updateAndroidSoftKeyFlagIfAny event ;;
  composing ← isComposing editor;
  if composing : bool then ret tt
  else
    let keyCode := keyCode event in
    let shiftKey := shiftKey event in
    let ctrlKey := ctrlKey event in
    let metaKey := metaKey event in
    let altKey := altKey event in
    if isMoveForward keyCode ctrlKey shiftKey altKey metaKey then
      execCommand editor "keyArrowRight" (PEvent event)
    else if isMoveBackward keyCode ctrlKey shiftKey altKey metaKey then
      execCommand editor "keyArrowLeft" (PEvent event)
    else if isMoveUp keyCode ctrlKey shiftKey altKey metaKey then
      execCommand editor "keyArrowUp" (PEvent event)
    else if isMoveDown keyCode ctrlKey shiftKey altKey metaKey then
      execCommand editor "keyArrowDown" (PEvent event)
    else if isLineBreak keyCode shiftKey then
      execCommand editor "keyEnter" (PEvent event)
    else if isOpenLineBreak keyCode ctrlKey then
      call (PreventDefault event) ;;
      execCommand editor "insertLineBreak" (PBool true)
    else if isParagraph keyCode shiftKey then
      execCommand editor "keyEnter" (PEvent event)
    else if isDeleteBackward keyCode altKey metaKey ctrlKey then
      if isBackspace keyCode then
        execCommand editor "keyBackspace" (PEvent event)
      else
        execCommand editor "deleteCharacter" (PBool true)
    else if isEscape keyCode then
      execCommand editor "keyEscape" (PEvent event)
    else if isDeleteForward keyCode ctrlKey shiftKey altKey metaKey then
      if isDelete keyCode then
        execCommand editor "keyDelete" (PEvent event)
      else
        call (PreventDefault event) ;;
        execCommand editor "deleteCharacter" (PBool false)
    else if isDeleteWordBackward keyCode altKey ctrlKey then
      call (PreventDefault event) ;;
      execCommand editor "deleteWord" (PBool true)
    else if isDeleteWordForward keyCode altKey ctrlKey then
      call (PreventDefault event) ;;
      execCommand editor "deleteWord" (PBool false)
    else if isDeleteLineBackward keyCode metaKey then
      call (PreventDefault event) ;;
      execCommand editor "deleteLine" (PBool true)
    else if isDeleteLineForward keyCode metaKey then
      call (PreventDefault event) ;;
      execCommand editor "deleteLine" (PBool false)
    else if isBold keyCode metaKey ctrlKey then
      call (PreventDefault event) ;;
      execCommand editor "formatText" (PString "bold")
    else if isUnderline keyCode metaKey ctrlKey then
      call (PreventDefault event) ;;
      execCommand editor "formatText" (PString "underline")
    else if isItalic keyCode metaKey ctrlKey then
      call (PreventDefault event) ;;
      execCommand editor "formatText" (PString "italic")
    else if isTab keyCode altKey ctrlKey metaKey then
      execCommand editor "keyTab" (PEvent event)
    else if isUndo keyCode shiftKey metaKey ctrlKey then
      call (PreventDefault event) ;;
      execCommand editor "undo" NoPayload
    else if isRedo keyCode shiftKey metaKey ctrlKey then
      call (PreventDefault event) ;;
      execCommand editor "redo" NoPayload
    else
      ret tt.

(** ** The listener table *)

Definition rootElementEvents : list (string * OnEvent) :=
  [ ("keydown", Fn KeyDown);
    ("compositionstart", Fn CompositionStart);
    ("compositionend", Fn CompositionEnd);
    ("input", Fn Input);
    ("click", Fn Click);
    ("cut", PASS_THROUGH_COMMAND);
    ("copy", PASS_THROUGH_COMMAND);
    ("dragstart", PASS_THROUGH_COMMAND);
    ("paste", PASS_THROUGH_COMMAND);
    ("focus", PASS_THROUGH_COMMAND);
    ("blur", PASS_THROUGH_COMMAND) ] ++
  (if CAN_USE_BEFORE_INPUT
   then [ ("beforeinput", Fn BeforeInput) ]
   else [ ("drop", PASS_THROUGH_COMMAND) ]).

Definition callHandler (f : HandlerName) (event : Event) (editor : LexicalEditor)
  : M unit :=
  match f with
  | KeyDown => onKeyDown event editor
  | CompositionStart => onCompositionStart event editor
  | CompositionEnd => onCompositionEnd event editor
  | Input => onInput event editor
  | Click => onClick event editor
  | BeforeInput => onBeforeInput event editor
  end.

(** The test of [isRootEditable] in a world. *)
Definition rootEditable (w : World) (editor : LexicalEditor) : bool :=
  match _rootElement (editorObj w editor) with
  | Some rootElement =>
      (contentEditable (elementObj w rootElement) =? "true")%string
  | None => false
  end.

Definition isRootEditable (editor : LexicalEditor) : M bool :=
  gets (fun w => rootEditable w editor).

(** ** Fields and listeners of a root element *)

Definition with_lexicalEditor (f : JSField LexicalEditor) (el : HTMLElement)
  : HTMLElement :=
  mkHTMLElement (contentEditable el) (ownerDocument el) f
                (_lexicalEventHandles el) (listeners el).

Definition with_handles (h : option (list RemoveHandle)) (el : HTMLElement)
  : HTMLElement :=
  mkHTMLElement (contentEditable el) (ownerDocument el) (__lexicalEditor el)
                h (listeners el).

Definition with_listeners (ls : list Listener) (el : HTMLElement) : HTMLElement :=
  mkHTMLElement (contentEditable el) (ownerDocument el) (__lexicalEditor el)
                (_lexicalEventHandles el) ls.

Definition update_element (r : nat) (f : HTMLElement -> HTMLElement) : M unit :=
  modify (fun w => set_element r (f (elementObj w r)) w).

(** Whether a registered listener is the function object [closure]
    registered for [eventName]. *)
Definition same_listener (eventName : string) (closure : nat) (l : Listener) : bool :=
  (l_eventName l =? eventName)%string && Nat.eqb (l_closure l) closure.

(** The listener list after [addEventListener]: a function object that
    is already registered for the event is not added again. *)
Definition add_listener (ls : list Listener) (l : Listener) : list Listener :=
  if existsb (same_listener (l_eventName l) (l_closure l)) ls
  then ls
  else ls ++ [l].

(** The listener list after [removeEventListener]. *)
Definition remove_listener (eventName : string) (closure : nat)
    (ls : list Listener) : list Listener :=
  List.filter (fun l => negb (same_listener eventName closure l)) ls.

(** [rootElement.addEventListener(eventName, eventHandler)] *)
Definition addEventListener (rootElement : nat) (l : Listener) : M unit :=
  update_element rootElement (fun el =>
    with_listeners (add_listener (listeners el) l) el).

(** [rootElement.removeEventListener(eventName, eventHandler)] *)
Definition removeEventListener (rootElement : nat) (eventName : string)
    (closure : nat) : M unit :=
  update_element rootElement (fun el =>
    with_listeners (remove_listener eventName closure (listeners el)) el).

(** A new function object; the result is its identity. *)
Definition newClosure : M nat :=
  n ← gets closures;
  modify (set_closures (S n)) ;;
  ret n.

(** [getRootElementRemoveHandles].  The array that it returns is the one
    stored in the element, so the contents are read here and a later
    [push] writes the field ([pushRemoveHandle]). *)
Definition getRootElementRemoveHandles (rootElement : nat) : M (list RemoveHandle) :=
  eventHandles ← gets (fun w => _lexicalEventHandles (elementObj w rootElement));
  match eventHandles with
  | None =>
      update_element rootElement (with_handles (Some [])) ;;
      ret []
  | Some eventHandles => ret eventHandles
  end.

(** [removeHandles.push(handle)] *)
Definition pushRemoveHandle (rootElement : nat) (handle : RemoveHandle) : M unit :=
  update_element rootElement (fun el =>
    with_handles (Some (default [] (_lexicalEventHandles el) ++ [handle])) el).

Definition clearRootElementRemoveHandles (rootElement : nat) : M unit :=
  update_element rootElement (with_handles (Some [])).

(** ** Selection change of the document *)

(** The block of [onDocumentSelectionChange] that runs for the editor
    found on the way up from the anchor node. *)
Definition activateEditor (nextActiveEditor : LexicalEditor) : M unit :=
  let editors := getEditorsToPropagate nextActiveEditor in
  let rootEditor := List.last editors nextActiveEditor in
  let rootEditorKey := _key rootEditor in
  activeNestedEditor ← gets (fun w => activeNestedEditorsMap w !! rootEditorKey);
  let prevActiveEditor := default rootEditor activeNestedEditor in
  when (bool_decide (prevActiveEditor ≠ nextActiveEditor))
       (onSelectionChange prevActiveEditor false) ;;
  onSelectionChange nextActiveEditor true ;;
  if bool_decide (nextActiveEditor ≠ rootEditor) then
    modify (fun w =>
      set_map (<[rootEditorKey := nextActiveEditor]> (activeNestedEditorsMap w)) w)
  else if bool_decide (activeNestedEditor ≠ None) then
    modify (fun w =>
      set_map (delete rootEditorKey (activeNestedEditorsMap w)) w)
  else ret tt.

(** [onDocumentSelectionChange].  [chain] is [sel.anchorNode] followed by
    its [parentNode]s up to the document; the loop
    [while (node != null) { ...; node = node.parentNode }] visits it in
    order and returns at the first node that is editable and tagged.  A
    back-reference that is [null] passes the test [!== undefined];
    [getEditorsToPropagate(null)] has no last element and reading [_key]
    of it throws. *)
Fixpoint onDocumentSelectionChange (chain : list nat) : M unit :=
  match chain with
  | [] => ret tt
  | node :: parents =>
      el ← gets (fun w => elementObj w node);
      if (contentEditable el =? "true")%string then
        match __lexicalEditor el with
        | Undefined => onDocumentSelectionChange parents
        | Null => throw "TypeError: rootEditor is undefined"
        | Val nextActiveEditor => activateEditor nextActiveEditor
        end
      else onDocumentSelectionChange parents
  end.

Definition addDocumentSelectionChangeEvent (rootElement : nat)
    (editor : LexicalEditor) : M unit :=
  doc ← gets (fun w => ownerDocument (elementObj w rootElement));
  update_element rootElement (with_lexicalEditor (Val editor)) ;;
  lexicalEvent ← gets (fun w => _lexicalEvent (documentObj w doc));
  when (negb lexicalEvent)
       (modify (set_document doc (mkDocument true true))).

(** ** Attach and detach *)

(** The body of the loop of [addRootElementEvents] for one entry of the
    table. *)
Definition registerEntry (rootElement : nat) (editor : LexicalEditor)
    (entry : string * OnEvent) : M unit :=
  let eventName := fst entry in
  let onEvent := snd entry in
  eventHandler ← newClosure;
  addEventListener rootElement (mkListener eventName eventHandler onEvent editor) ;;
  pushRemoveHandle rootElement (mkRemoveHandle rootElement eventName eventHandler).

Definition addRootElementEvents (rootElement : nat) (editor : LexicalEditor)
  : M unit :=
  _ ← getRootElementRemoveHandles rootElement;
  for_each rootElementEvents (registerEntry rootElement editor).

(** The argument is the value of the field [__lexicalEditor];
    reading [_parentEditor] of [undefined] or [null] throws. *)
Definition cleanActiveNestedEditorsMap (editor : JSField LexicalEditor) : M unit :=
  match editor with
  | Val editor =>
      match _parentEditor editor with
      | Some _ =>
          let editors := getEditorsToPropagate editor in
          let rootEditor := List.last editors editor in
          let rootEditorKey := _key rootEditor in
          m ← gets activeNestedEditorsMap;
          when (bool_decide (m !! rootEditorKey = Some editor))
               (modify (fun w =>
                  set_map (delete rootEditorKey (activeNestedEditorsMap w)) w))
      | None =>
          modify (fun w =>
            set_map (delete (_key editor) (activeNestedEditorsMap w)) w)
      end
  | _ => throw "TypeError: cannot read properties of undefined (reading '_parentEditor')"
  end.

(** [removeHandles[i]()] *)
Definition callRemoveHandle (handle : RemoveHandle) : M unit :=
  removeEventListener (rh_rootElement handle) (rh_eventName handle)
                      (rh_eventHandler handle).

Definition removeRootElementEvents (rootElement : nat) : M unit :=
  editor ← gets (fun w => __lexicalEditor (elementObj w rootElement));
  cleanActiveNestedEditorsMap editor ;;
  update_element rootElement (with_lexicalEditor Null) ;;
  removeHandles ← getRootElementRemoveHandles rootElement;
  for_each removeHandles callRemoveHandle ;;
  clearRootElementRemoveHandles rootElement.

(** ** The platform side: dispatch and the timer queue *)

(** The body of the [eventHandler] arrow functions. *)
Definition eventHandler (l : Listener) (event : Event) : M unit :=
  editable ← isRootEditable (l_editor l);
  when editable
       match l_onEvent l with
       | Fn onEvent => callHandler onEvent event (l_editor l)
       | PASS_THROUGH_COMMAND =>
           execCommand (l_editor l) (l_eventName l) (PEvent event)
       end.

(** The platform invokes the listeners of one element of the
    propagation path: those registered for the type of the event run in
    registration order. *)
Definition invokeListeners (currentTarget : nat) (event : Event) : M unit :=
  ls ← gets (fun w =>
         List.filter (fun l => (l_eventName l =? event_type event)%string)
                     (listeners (elementObj w currentTarget)));
  for_each ls (fun l => reportError (eventHandler l event)).

(** The calls that a computation makes, as its result. *)
Definition listen {A} (m : M A) : M (list Effect) :=
  fun w =>
    match m w with
    | mkOutcome (Ok _) w1 log1 => mkOutcome (Ok log1) w1 log1
    | mkOutcome (Throw err) w1 log1 => mkOutcome (Throw err) w1 log1
    end.

Definition is_stopPropagation (e : Effect) : bool :=
  match e with
  | StopPropagation _ => true
  | _ => false
  end.

(** Of the event types of the table, [focus] and [blur] are the two that
    the platform does not let bubble. *)
Definition bubbles (event : Event) : bool :=
  negb ((event_type event =? "focus")%string ||
        (event_type event =? "blur")%string).

(** The platform fires [event]: [path] is its propagation path, the
    target followed by its [parentNode]s.  The listeners of the table
    are registered without [capture], so they run in the bubble phase:
    those of the target first, then those of each ancestor in turn.  The
    event goes on to the next element unless it does not bubble or a
    listener has called [stopPropagation] on it; the other listeners of
    the element on which [stopPropagation] was called still run. *)
Fixpoint dispatchEvent (path : list nat) (event : Event) : M unit :=
  match path with
  | [] => ret tt
  | currentTarget :: ancestors =>
      calls ← listen (invokeListeners currentTarget event);
      if existsb is_stopPropagation calls || negb (bubbles event)
      then ret tt
      else dispatchEvent ancestors event
  end.

Definition runTask (task : Task) : M unit :=
  match task with
  | CompositionEndTask event editor => onCompositionEndInternal event editor
  end.

(** A later turn of the event loop: the callbacks that wait in the timer
    queue run in the order in which they were scheduled. *)
Definition runTimers : M unit :=
  tasks ← gets timers;
  modify (set_timers []) ;;
  for_each tasks (fun task => reportError (runTask task)).

(** ** The keyboard table as data

    The specification describes key translation as "an ordered list of
    (predicate, command) pairs evaluated top-to-bottom against (key code,
    ctrl, shift, alt, meta)".  [keyboardTable] is that list, in the order
    of the conditional chain of [onKeyDown]; [translate] takes the first
    pair whose predicate holds. *)

Record ModifierState : Type := mkModifierState {
  ms_keyCode : Z;
  ms_ctrl : bool;
  ms_shift : bool;
  ms_alt : bool;
  ms_meta : bool;
}.

Definition modifierState (event : Event) : ModifierState :=
  mkModifierState (keyCode event) (ctrlKey event) (shiftKey event)
                  (altKey event) (metaKey event).

(** What a translation does: whether it calls [preventDefault] first,
    the command name and the payload ([None]: the raw event). *)
Record KeyAction : Type := mkKeyAction {
  ka_preventDefault : bool;
  ka_type : string;
  ka_payload : option Payload;
}.

Definition keyboardTable
  : list ((ModifierState -> bool) * (ModifierState -> KeyAction)) :=
  [ (fun s => isMoveForward (ms_keyCode s) (ms_ctrl s) (ms_shift s) (ms_alt s) (ms_meta s),
     fun _ => mkKeyAction false "keyArrowRight" None);
    (fun s => isMoveBackward (ms_keyCode s) (ms_ctrl s) (ms_shift s) (ms_alt s) (ms_meta s),
     fun _ => mkKeyAction false "keyArrowLeft" None);
    (fun s => isMoveUp (ms_keyCode s) (ms_ctrl s) (ms_shift s) (ms_alt s) (ms_meta s),
     fun _ => mkKeyAction false "keyArrowUp" None);
    (fun s => isMoveDown (ms_keyCode s) (ms_ctrl s) (ms_shift s) (ms_alt s) (ms_meta s),
     fun _ => mkKeyAction false "keyArrowDown" None);
    (fun s => isLineBreak (ms_keyCode s) (ms_shift s),
     fun _ => mkKeyAction false "keyEnter" None);
    (fun s => isOpenLineBreak (ms_keyCode s) (ms_ctrl s),
     fun _ => mkKeyAction true "insertLineBreak" (Some (PBool true)));
    (fun s => isParagraph (ms_keyCode s) (ms_shift s),
     fun _ => mkKeyAction false "keyEnter" None);
    (fun s => isDeleteBackward (ms_keyCode s) (ms_alt s) (ms_meta s) (ms_ctrl s),
     fun s => if isBackspace (ms_keyCode s)
              then mkKeyAction false "keyBackspace" None
              else mkKeyAction false "deleteCharacter" (Some (PBool true)));
    (fun s => isEscape (ms_keyCode s),
     fun _ => mkKeyAction false "keyEscape" None);
    (fun s => isDeleteForward (ms_keyCode s) (ms_ctrl s) (ms_shift s) (ms_alt s) (ms_meta s),
     fun s => if isDelete (ms_keyCode s)
              then mkKeyAction false "keyDelete" None
              else mkKeyAction true "deleteCharacter" (Some (PBool false)));
    (fun s => isDeleteWordBackward (ms_keyCode s) (ms_alt s) (ms_ctrl s),
     fun _ => mkKeyAction true "deleteWord" (Some (PBool true)));
    (fun s => isDeleteWordForward (ms_keyCode s) (ms_alt s) (ms_ctrl s),
     fun _ => mkKeyAction true "deleteWord" (Some (PBool false)));
    (fun s => isDeleteLineBackward (ms_keyCode s) (ms_meta s),
     fun _ => mkKeyAction true "deleteLine" (Some (PBool true)));
    (fun s => isDeleteLineForward (ms_keyCode s) (ms_meta s),
     fun _ => mkKeyAction true "deleteLine" (Some (PBool false)));
    (fun s => isBold (ms_keyCode s) (ms_meta s) (ms_ctrl s),
     fun _ => mkKeyAction true "formatText" (Some (PString "bold")));
    (fun s => isUnderline (ms_keyCode s) (ms_meta s) (ms_ctrl s),
     fun _ => mkKeyAction true "formatText" (Some (PString "underline")));
    (fun s => isItalic (ms_keyCode s) (ms_meta s) (ms_ctrl s),
     fun _ => mkKeyAction true "formatText" (Some (PString "italic")));
    (fun s => isTab (ms_keyCode s) (ms_alt s) (ms_ctrl s) (ms_meta s),
     fun _ => mkKeyAction false "keyTab" None);
    (fun s => isUndo (ms_keyCode s) (ms_shift s) (ms_meta s) (ms_ctrl s),
     fun _ => mkKeyAction true "undo" (Some NoPayload));
    (fun s => isRedo (ms_keyCode s) (ms_shift s) (ms_meta s) (ms_ctrl s),
     fun _ => mkKeyAction true "redo" (Some NoPayload)) ].

(** First match in a table of (predicate, command) pairs. *)
Fixpoint firstMatch {S C : Type} (table : list ((S -> bool) * (S -> C))) (s : S)
  : option C :=
  match table with
  | [] => None
  | (p, c) :: rest => if p s then Some (c s) else firstMatch rest s
  end.

Definition translate (s : ModifierState) : option KeyAction :=
  firstMatch keyboardTable s.

(** The calls that carry out a translation for one raw event. *)
Definition performed (a : option KeyAction) (event : Event) (editor : LexicalEditor)
  : list Effect :=
  match a with
  | None => []
  | Some a =>
      (if ka_preventDefault a then [PreventDefault event] else []) ++
      [ExecCommand editor (ka_type a) (default (PEvent event) (ka_payload a))]
  end.

(** ** Vocabulary of the properties *)

(** The selection on which [onBeforeInput] translates: the selection of
    the editor after the target-range step that precedes the reading of
    [selection.anchor] and [selection.focus]. *)
Definition targetedSelection (nodes : NodeMap) (sel : RangeSelection)
    (event : Event) : RangeSelection :=
  if negb (dirty sel) && isCollapsed sel &&
     negb (isRootNode (getNode nodes (anchor sel)))
  then
    match getTargetRanges event with
    | Some (targetRange :: _) => applyDOMRange nodes sel targetRange
    | _ => sel
    end
  else sel.

(** The calls of that step. *)
Definition targetRangeCalls (nodes : NodeMap) (sel : RangeSelection)
    (event : Event) (editor : LexicalEditor) : list Effect :=
  if negb (dirty sel) && isCollapsed sel &&
     negb (isRootNode (getNode nodes (anchor sel)))
  then
    match getTargetRanges event with
    | Some (targetRange :: _) => [ApplyDOMRange editor targetRange]
    | _ => []
    end
  else [].

(** Some call that satisfies [P] is made before some call that satisfies [Q]. *)
Fixpoint occurs_before (P Q : Effect -> bool) (log : list Effect) : bool :=
  match log with
  | [] => false
  | x :: rest => (P x && existsb Q rest) || occurs_before P Q rest
  end.

Definition is_insertText_space (e : Effect) : bool :=
  match e with
  | ExecCommand _ t (PString s) => (t =? "insertText")%string && (s =? " ")%string
  | _ => false
  end.

Definition is_setCompositionKey (e : Effect) : bool :=
  match e with
  | SetCompositionKey _ (Some _) => true
  | _ => false
  end.

(** The back-reference at which the walk of [onDocumentSelectionChange]
    stops: that of the first node of the chain that is editable and
    tagged ([Undefined] when there is none). *)
Fixpoint foundEditor (w : World) (chain : list nat) : JSField LexicalEditor :=
  match chain with
  | [] => Undefined
  | node :: parents =>
      let el := elementObj w node in
      if (contentEditable el =? "true")%string then
        match __lexicalEditor el with
        | Undefined => foundEditor w parents
        | f => f
        end
      else foundEditor w parents
  end.

(** The listeners that one call of [addRootElementEvents] makes for the
    entries of [table], [n] being the first function object, and the
    removal handles that it pushes. *)
Fixpoint listenersFrom (n : nat) (editor : LexicalEditor)
    (table : list (string * OnEvent)) : list Listener :=
  match table with
  | [] => []
  | entry :: rest =>
      mkListener (fst entry) n (snd entry) editor :: listenersFrom (S n) editor rest
  end.

Fixpoint handlesFrom (rootElement n : nat) (table : list (string * OnEvent))
  : list RemoveHandle :=
  match table with
  | [] => []
  | entry :: rest =>
      mkRemoveHandle rootElement (fst entry) n :: handlesFrom rootElement (S n) rest
  end.

(** Whether calling the removal handle [h] removes the listener [l] of
    the element [rootElement]. *)
Definition removes (rootElement : nat) (h : RemoveHandle) (l : Listener) : bool :=
  Nat.eqb (rh_rootElement h) rootElement &&
  same_listener (rh_eventName h) (rh_eventHandler h) l.

(** Two worlds agree on everything but the elements and the count of
    function objects. *)
Definition same_outside_elements (w w' : World) : Prop :=
  lastKeyWasMaybeAndroidSoftKey w' = lastKeyWasMaybeAndroidSoftKey w /\
  activeNestedEditorsMap w' = activeNestedEditorsMap w /\
  editorObj w' = editorObj w /\
  documentObj w' = documentObj w /\
  timers w' = timers w.

(** Two worlds agree on the attributes of every element that are not
    the listener list and the handle list. *)
Definition same_attributes (w w' : World) : Prop :=
  forall x,
    contentEditable (elementObj w' x) = contentEditable (elementObj w x) /\
    ownerDocument (elementObj w' x) = ownerDocument (elementObj w x) /\
    __lexicalEditor (elementObj w' x) = __lexicalEditor (elementObj w x).

(** The map after [cleanActiveNestedEditorsMap(editor)]. *)
Definition cleanedMap (editor : LexicalEditor) (m : gmap string LexicalEditor)
  : gmap string LexicalEditor :=
  match _parentEditor editor with
  | Some _ =>
      let rootEditorKey := _key (rootEditorOf editor) in
      if bool_decide (m !! rootEditorKey = Some editor)
      then delete rootEditorKey m
      else m
  | None => delete (_key editor) m
  end.

(** The listeners that no handle of [hs] removes from the element. *)
Definition remaining (rootElement : nat) (hs : list RemoveHandle)
    (ls : list Listener) : list Listener :=
  List.filter (fun l => negb (existsb (fun h => removes rootElement h l) hs)) ls.

(** Every listener of [ls] is removed by some handle of [hs]. *)
Definition covered (rootElement : nat) (hs : list RemoveHandle)
    (ls : list Listener) : Prop :=
  forall l, l ∈ ls -> exists h, h ∈ hs /\ removes rootElement h l = true.

(** The format that an activation gives a collapsed selection. *)
Definition activationFormat (nodes : NodeMap) (sel : RangeSelection) : Z :=
  match type (anchor sel) with
  | text => getFormat (getNode nodes (anchor sel))
  | element => 0
  end.

(** A computation never writes [activeNestedEditorsMap]. *)
Definition keeps_map {A : Type} (m : M A) : Prop :=
  forall w, activeNestedEditorsMap (world (m w)) = activeNestedEditorsMap w.

(** Every entry of the map is a nested editor, filed under the key of
    its root editor. *)
Definition nested_under_root (m : gmap string LexicalEditor) : Prop :=
  forall k v, m !! k = Some v -> _parentEditor v <> None /\ k = _key (rootEditorOf v).

(** The commands that reach the dispatch sink when the platform fires
    [events] along the propagation path [path] after [setup]. *)
Definition commandStream (setup : M unit) (path : list nat)
    (events : list Event) (w : World) : list (string * Payload) :=
  commands (effects ((setup ;; for_each events (dispatchEvent path)) w)).

(** The test of [updateAndroidSoftKeyFlagIfAny]. *)
Definition softKey (event : Event) : bool :=
  (event_key event =? "Unidentified")%string && (keyCode event =? 229)%Z.

Definition is_preventDefault (e : Effect) : bool :=
  match e with
  | PreventDefault _ => true
  | _ => false
  end.

(** A call that hands an edit to the engine: a command or a raw text
    insert. *)
Definition is_dispatch (e : Effect) : bool :=
  match e with
  | ExecCommand _ _ _ => true
  | InsertRawText _ _ => true
  | _ => false
  end.

(** The input types that [onBeforeInput] names: the two composition
    types, [deleteContentBackward], [insertText] and the case labels of
    the switch. *)
Definition inputTypes : list string :=
  [ "deleteCompositionText"; "insertCompositionText"; "deleteContentBackward";
    "insertText"; "insertFromYank"; "insertFromDrop"; "insertReplacementText";
    "insertFromComposition"; "insertLineBreak"; "insertParagraph";
    "insertFromPaste"; "insertFromPasteAsQuotation"; "deleteByComposition";
    "deleteByDrag"; "deleteByCut"; "deleteContent"; "deleteWordBackward";
    "deleteWordForward"; "deleteHardLineBackward"; "deleteSoftLineBackward";
    "deleteContentForward"; "deleteHardLineForward"; "deleteSoftLineForward";
    "formatStrikeThrough"; "formatBold"; "formatItalic"; "formatUnderline";
    "historyUndo"; "historyRedo" ].

(** A computation keeps a property of the world. *)
Definition preserves {A : Type} (P : World -> Prop) (m : M A) : Prop :=
  forall w, P w -> P (world (m w)).

(** What the module is asked to do, one call at a time: the exported
    functions, a [selectionchange] of the document, an event fired on an
    element (with its propagation path), a later turn of the event
    loop. *)
Inductive Step : Type :=
| SelectionChange (chain : list nat)
| Attach (rootElement : nat) (editor : LexicalEditor)
| Track (rootElement : nat) (editor : LexicalEditor)
| Detach (rootElement : nat)
| Fire (path : list nat) (event : Event)
| Turn.

Definition step (s : Step) : M unit :=
  match s with
  | SelectionChange chain => onDocumentSelectionChange chain
  | Attach rootElement editor => addRootElementEvents rootElement editor
  | Track rootElement editor => addDocumentSelectionChangeEvent rootElement editor
  | Detach rootElement => removeRootElementEvents rootElement
  | Fire path event => dispatchEvent path event
  | Turn => runTimers
  end.

(** A sequence of steps; a step that throws is reported by the platform
    and the next one runs in the world it left. *)
Definition run (steps : list Step) : M unit :=
  for_each steps (fun s => reportError (step s)).


(** The editor is not composing. *)
Definition idle (e : LexicalEditor) (w : World) : Prop :=
  _compositionKey (editorObj w e) = None.

(** [w'] has the surfaces of [w]: the elements with their listeners,
    removal handles and back-references, the documents, the function
    objects, the map of active nested editors and the root element of
    every editor. *)
Definition same_registration (w w' : World) : Prop :=
  elementObj w' = elementObj w /\
  documentObj w' = documentObj w /\
  closures w' = closures w /\
  activeNestedEditorsMap w' = activeNestedEditorsMap w /\
  forall e, _rootElement (editorObj w' e) = _rootElement (editorObj w e).

(** Every listener can be removed: on every element, some removal
    handle of the element removes each of its listeners, and every
    registered function object is older than the next one to be made. *)
Definition registered_ok (w : World) : Prop :=
  forall r,
    covered r (default [] (_lexicalEventHandles (elementObj w r)))
            (listeners (elementObj w r)) /\
    (forall l, l ∈ listeners (elementObj w r) -> (l_closure l < closures w)%nat).

End LexicalEvents.

(** ** A concrete platform, engine and world for the examples

    The key bindings and the node model of this module are small
    stand-ins for the parts of Lexical that the handlers import; they
    give the examples something to run on and are not used by the
    general theorems. *)
Module Sample.

Definition chromium : Environment :=
  {| CAN_USE_BEFORE_INPUT := true; IS_FIREFOX := false |}.

Definition firefox : Environment :=
  {| CAN_USE_BEFORE_INPUT := true; IS_FIREFOX := true |}.

(** Key bindings of a platform without a command key. *)
Definition keys : KeyPredicates := {|
  isMoveForward kc ctrl shift alt meta := (kc =? 39)%Z && negb ctrl && negb meta && negb alt;
  isMoveBackward kc ctrl shift alt meta := (kc =? 37)%Z && negb ctrl && negb meta && negb alt;
  isMoveUp kc ctrl shift alt meta := (kc =? 38)%Z && negb ctrl && negb meta;
  isMoveDown kc ctrl shift alt meta := (kc =? 40)%Z && negb ctrl && negb meta;
  isLineBreak kc shift := (kc =? 13)%Z && shift;
  isOpenLineBreak kc ctrl := false;
  isParagraph kc shift := (kc =? 13)%Z && negb shift;
  isDeleteBackward kc alt meta ctrl :=
    if ctrl || alt || meta then false else (kc =? 8)%Z;
  isBackspace kc := (kc =? 8)%Z;
  isEscape kc := (kc =? 27)%Z;
  isDeleteForward kc ctrl shift alt meta :=
    if ctrl || alt || meta then false else (kc =? 46)%Z;
  isDelete kc := (kc =? 46)%Z;
  isDeleteWordBackward kc alt ctrl := (kc =? 8)%Z && ctrl;
  isDeleteWordForward kc alt ctrl := (kc =? 46)%Z && ctrl;
  isDeleteLineBackward kc meta := false;
  isDeleteLineForward kc meta := false;
  isBold kc meta ctrl := (kc =? 66)%Z && ctrl;
  isUnderline kc meta ctrl := (kc =? 85)%Z && ctrl;
  isItalic kc meta ctrl := (kc =? 73)%Z && ctrl;
  isTab kc alt ctrl meta := (kc =? 9)%Z && negb alt && negb ctrl && negb meta;
  isUndo kc shift meta ctrl := (kc =? 90)%Z && negb shift && ctrl;
  isRedo kc shift meta ctrl :=
    ((kc =? 89)%Z && ctrl) || ((kc =? 90)%Z && shift && ctrl);
|}.

(** Key bindings under which every predicate holds of every key: they
    show the priority of the table alone. *)
Definition everyKey : KeyPredicates := {|
  isMoveForward _ _ _ _ _ := true;
  isMoveBackward _ _ _ _ _ := true;
  isMoveUp _ _ _ _ _ := true;
  isMoveDown _ _ _ _ _ := true;
  isLineBreak _ _ := true;
  isOpenLineBreak _ _ := true;
  isParagraph _ _ := true;
  isDeleteBackward _ _ _ _ := true;
  isBackspace _ := true;
  isEscape _ := true;
  isDeleteForward _ _ _ _ _ := true;
  isDelete _ := true;
  isDeleteWordBackward _ _ _ := true;
  isDeleteWordForward _ _ _ := true;
  isDeleteLineBackward _ _ := true;
  isDeleteLineForward _ _ := true;
  isBold _ _ _ := true;
  isUnderline _ _ _ := true;
  isItalic _ _ _ := true;
  isTab _ _ _ _ := true;
  isUndo _ _ _ _ := true;
  isRedo _ _ _ _ := true;
|}.

(** A node: the root, a top-level block with its number of children, or
    a text node with its block, format bits and token/inert mode. *)
Inductive Node : Type :=
| RootNode
| BlockNode (key : string) (children : nat)
| TextNode (key : string) (block : string) (format : Z) (tokenOrInert : bool).

#[global] Instance Node_eq_dec : EqDecision Node.
Proof. solve_decision. Defined.

Definition node_key (n : Node) : string :=
  match n with
  | RootNode => "root"
  | BlockNode k _ => k
  | TextNode k _ _ _ => k
  end.

Definition lookup_node (nodes : list Node) (k : string) : Node :=
  default RootNode (List.find (fun n => (node_key n =? k)%string) nodes).

Definition point_eqb (a b : Point) : bool :=
  (key a =? key b)%string && Nat.eqb (offset a) (offset b) &&
  bool_decide (type a = type b).

Definition engine : Engine := {|
  LexicalNode := Node;
  NodeMap := list Node;
  getNode nodes p := lookup_node nodes (key p);
  isElementNode n := match n with TextNode _ _ _ _ => false | _ => true end;
  isRootNode n := match n with RootNode => true | _ => false end;
  isTokenOrInert n := match n with TextNode _ _ _ t => t | _ => false end;
  getFormat n := match n with TextNode _ _ f _ => f | _ => 0%Z end;
  getTopLevelElementOrThrow nodes n :=
    match n with
    | RootNode => None
    | BlockNode _ _ => Some n
    | TextNode _ b _ _ => Some (lookup_node nodes b)
    end;
  isEmpty nodes n := match n with BlockNode _ 0 => true | _ => false end;
  rootChildrenSize nodes :=
    length (List.filter (fun n => match n with BlockNode _ _ => true | _ => false end)
                        nodes);
  isCollapsed sel := point_eqb (anchor sel) (focus sel);
  selection_is a b :=
    point_eqb (anchor a) (anchor b) && point_eqb (focus a) (focus b);
  shouldPreventDefaultAndInsertText nodes sel d isBeforeInput := true;
  applyDOMRange nodes sel r :=
    mkRangeSelection
      (mkPoint (key (anchor sel)) (startOffset r) (type (anchor sel)))
      (mkPoint (key (focus sel)) (endOffset r) (type (focus sel)))
      (dirty sel) (format sel);
|}.

#[local] Existing Instance engine.

(** A root editor with two nested editors. *)
Definition root : LexicalEditor := Editor 0 "root" None.
Definition nestedA : LexicalEditor := Editor 1 "a" (Some root).

(** A document with one paragraph that holds a bold word and an
    inert mention. *)
Definition paragraph : list Node :=
  [ RootNode; BlockNode "p" 2; TextNode "t" "p" 1 false; TextNode "m" "p" 0 true ].

(** A document whose only block is empty. *)
Definition emptyParagraph : list Node := [ RootNode; BlockNode "p" 0 ].

Definition caretAt (k : string) (o : nat) (t : PointType) : RangeSelection :=
  mkRangeSelection (mkPoint k o t) (mkPoint k o t) false 0.

(** Every editor starts idle, with the caret in the word ["t"]; the root
    element of the editor with address [n] is the element [n]. *)
Definition editorObj0 (e : LexicalEditor) : EditorObj :=
  match e with
  | Editor n _ _ =>
      mkEditorObj paragraph (Some (caretAt "t" 1 text)) (Some (caretAt "t" 1 text))
                  None (Some n)
  end.

(** Elements 0, 1 and 2 are editable surfaces; every other node is not
    (the node 9 stands for a DOM text node). *)
Definition elementObj0 (r : nat) : HTMLElement :=
  mkHTMLElement (if Nat.ltb r 3 then "true" else "inherit") 0 Undefined None [].

Definition world0 : World :=
  mkWorld false ∅ editorObj0 elementObj0 (fun _ => mkDocument false false) [] 0.

(** The world [w] with another document, selection and committed
    selection for the editor [e]. *)
Definition withDocument (e : LexicalEditor) (nodes : list Node)
    (sel last : option RangeSelection) (w : World) : World :=
  set_editor e
    (mkEditorObj nodes sel last (_compositionKey (editorObj w e))
                 (_rootElement (editorObj w e))) w.

Definition keyEvent (k : string) (code : Z) (ctrl : bool) : Event :=
  mkEvent "keydown" k code false ctrl false false EmptyString None None None.

Definition inputEvent (t : string) (inputType : string) (d : option string) : Event :=
  mkEvent t EmptyString 0 false false false false inputType d None None.

End Sample.

(** * Properties *)

(** Unfolds the monad and the engine calls, so that a handler applied to
    a world computes. *)
Ltac unfold_M :=
  unfold update, setSelection, setCompositionKey, setTimeout in *;
  unfold write_selection, execCommand, updateSelectedTextFromDOM, flushMutations,
    isComposing, getNodes, getSelection, update_element, when in *;
  unfold mbind, M_bind, bind, modify, gets, call, ret, throw in *.

(** Case analysis on the first condition of a chain of conditionals. *)
Ltac case_chain :=
  repeat match goal with
         | |- context [if ?c then _ else _] =>
             let E := fresh "E" in destruct c eqn:E; cbn; try reflexivity
         end.

(** ** First match in a table *)
Section FirstMatch.
Context {S C : Type}.
Implicit Types (table : list ((S -> bool) * (S -> C))) (s : S).

Lemma firstMatch_first table s (i : nat) p c :
  table !! i = Some (p, c) ->
  p s = true ->
  (forall (j : nat) q d, (j < i)%nat -> table !! j = Some (q, d) -> q s = false) ->
  firstMatch table s = Some (c s).
Proof.
  revert i. induction table as [|[q d] rest IH]; intros i Hi Hp Hbefore.
  - discriminate.
  - destruct i as [|i]; simpl in *.
    + injection Hi as -> ->. by rewrite Hp.
    + rewrite (Hbefore 0%nat q d); [|lia|reflexivity].
      apply (IH i); [assumption..|].
      intros j q' d' Hj Hq'. apply (Hbefore (Datatypes.S j) q' d'); [lia|assumption].
Qed.

Lemma firstMatch_none table s :
  (forall p c, (p, c) ∈ table -> p s = false) ->
  firstMatch table s = None.
Proof.
  induction table as [|[q d] rest IH]; intros Hall; simpl.
  - reflexivity.
  - rewrite (Hall q d) by apply list_elem_of_here.
    apply IH. intros p c Hin. apply (Hall p c). by apply list_elem_of_further.
Qed.

End FirstMatch.

(** ** Keyboard translation *)
Section KeyboardTranslation.
Context {env : Environment} {keys : KeyPredicates} {engine : Engine}.

(** While the editor is idle, the calls of [onKeyDown] are those of the
    first matching entry of the table. *)
Lemma onKeyDown_effects (w : World) (event : Event) (editor : LexicalEditor) :
  _compositionKey (editorObj w editor) = None ->
  effects (onKeyDown event editor w) =
  performed (translate (modifierState event)) event editor.
Proof.
  intros Hidle.
  unfold onKeyDown, translate, updateAndroidSoftKeyFlagIfAny. unfold_M.
  cbn. rewrite Hidle. cbn. case_chain.
Qed.

(** C1. While the editor is not composing, what [onKeyDown] dispatches is
    a function of (key code, ctrl, shift, alt, meta): two key events with
    the same tuple, in any two worlds and on any two editors, carry out
    the same action [a] (the same [preventDefault] decision, command name
    and payload, the payload being the raw event itself where the table
    says so), or both carry out none; [a] is the entry of the first
    predicate of [keyboardTable], in the order of the conditional chain,
    that holds of the tuple, and there is no command when no predicate
    holds. *)
Theorem onKeyDown_deterministic_first_match
    (w1 w2 : World) (e1 e2 : Event) (ed1 ed2 : LexicalEditor) :
  _compositionKey (editorObj w1 ed1) = None ->
  _compositionKey (editorObj w2 ed2) = None ->
  modifierState e1 = modifierState e2 ->
  let a := translate (modifierState e1) in
  effects (onKeyDown e1 ed1 w1) = performed a e1 ed1 /\
  effects (onKeyDown e2 ed2 w2) = performed a e2 ed2 /\
  (forall (i : nat) p c,
      keyboardTable !! i = Some (p, c) ->
      p (modifierState e1) = true ->
      (forall (j : nat) q d,
          (j < i)%nat -> keyboardTable !! j = Some (q, d) ->
          q (modifierState e1) = false) ->
      a = Some (c (modifierState e1))) /\
  ((forall p c, (p, c) ∈ keyboardTable -> p (modifierState e1) = false) ->
   a = None).
Proof.
  intros H1 H2 Hsame a. subst a. repeat split.
  - by apply onKeyDown_effects.
  - rewrite Hsame. by apply onKeyDown_effects.
  - intros i p c Hi Hp Hbefore. by apply (firstMatch_first _ _ i p c).
  - apply firstMatch_none.
Qed.

End KeyboardTranslation.

(** Backspace pressed on the root editor and, with another [key] string,
    on a nested editor in a world whose soft-key flag is set: both runs
    issue [keyBackspace] with their own raw event.  Under key bindings
    whose predicates all hold, the first entry of the table wins. *)
Lemma onKeyDown_deterministic_first_match_witness :
  let e1 := Sample.keyEvent "Backspace" 8 false in
  let e2 := Sample.keyEvent "Unidentified" 8 false in
  let w2 := set_lastKey true Sample.world0 in
  effects (onKeyDown (keys := Sample.keys) e1 Sample.root Sample.world0) =
    [ExecCommand Sample.root "keyBackspace" (PEvent e1)] /\
  effects (onKeyDown (keys := Sample.keys) e2 Sample.nestedA w2) =
    [ExecCommand Sample.nestedA "keyBackspace" (PEvent e2)] /\
  effects (onKeyDown (keys := Sample.everyKey) e1 Sample.root Sample.world0) =
    [ExecCommand Sample.root "keyArrowRight" (PEvent e1)].
Proof.
  intros e1 e2 w2.
  destruct (onKeyDown_deterministic_first_match
              (keys := Sample.keys)
              Sample.world0 w2 e1 e2 Sample.root Sample.nestedA
              eq_refl eq_refl eq_refl) as (Ha & Hb & _).
  destruct (onKeyDown_deterministic_first_match
              (keys := Sample.everyKey)
              Sample.world0 Sample.world0 e1 e1 Sample.root Sample.root
              eq_refl eq_refl eq_refl) as (Hc & _ & Hfirst & _).
  split; [rewrite Ha; reflexivity|]. split; [rewrite Hb; reflexivity|].
  rewrite Hc.
  rewrite (Hfirst 0%nat _ _ eq_refl eq_refl); [reflexivity|].
  intros j q d Hj. lia.
Defined.

(** ** Pre-commit input events *)
Section BeforeInput.
Context {env : Environment} {keys : KeyPredicates} {engine : Engine}.

(** C7. For a pre-commit event of type [deleteWordBackward] and a
    non-null selection, [onBeforeInput] completes, issues exactly one
    command, [deleteWord] with payload [true], and calls
    [preventDefault] on the raw event just before it dispatches the
    command; what precedes is the start of the update and the
    target-range step. *)
Theorem onBeforeInput_deleteWordBackward
    (w : World) (event : Event) (editor : LexicalEditor) (sel : RangeSelection) :
  inputType event = "deleteWordBackward" ->
  selection (editorObj w editor) = Some sel ->
  let o := onBeforeInput event editor w in
  result o = Ok tt /\
  commands (effects o) = [("deleteWord", PBool true)] /\
  effects o =
    Update editor :: targetRangeCalls (nodes (editorObj w editor)) sel event editor ++
    [PreventDefault event; ExecCommand editor "deleteWord" (PBool true)].
Proof.
  intros Htype Hsel.
  unfold onBeforeInput, beforeInputSwitch, applyTargetRange, targetRangeCalls.
  rewrite Htype. unfold_M. cbn. rewrite Hsel. cbn.
  destruct (negb (dirty sel) && isCollapsed sel &&
            negb (isRootNode (getNode (nodes (editorObj w editor)) (anchor sel))));
    [destruct (getTargetRanges event) as [[|r rs]|]|]; cbn; auto.
Qed.

(** C6. For a pre-commit event of type [deleteByComposition] and a
    selection, [removeText] is suppressed exactly when the anchor node
    and the focus node of the selection are the same node, that node is
    not an element and it is token or inert; in every other case
    [removeText] is the one command dispatched.  The nodes are those of
    the selection as [onBeforeInput] reads it, after the target-range
    step, which is also the selection that the editor holds afterwards. *)
Theorem onBeforeInput_deleteByComposition
    (w : World) (event : Event) (editor : LexicalEditor) (sel : RangeSelection) :
  inputType event = "deleteByComposition" ->
  selection (editorObj w editor) = Some sel ->
  let o := onBeforeInput event editor w in
  let nodes := nodes (editorObj w editor) in
  let sel' := targetedSelection nodes sel event in
  let anchorNode := getNode nodes (anchor sel') in
  let focusNode := getNode nodes (focus sel') in
  let atomic := anchorNode = focusNode /\
                isElementNode anchorNode = false /\
                isTokenOrInert anchorNode = true in
  selection (editorObj (world o) editor) = Some sel' /\
  (atomic -> commands (effects o) = []) /\
  (~ atomic -> commands (effects o) = [("removeText", NoPayload)]).
Proof.
  intros Htype Hsel o nd sel' anchorNode focusNode atomic.
  assert (Hcan : canRemoveText anchorNode focusNode = true <-> ~ atomic).
  { unfold canRemoveText, atomic.
    rewrite !orb_true_iff, !negb_true_iff, bool_decide_eq_true.
    destruct (decide (anchorNode = focusNode)) as [<-|Hne];
      destruct (isElementNode anchorNode), (isTokenOrInert anchorNode);
      intuition congruence. }
  assert (Hrun :
    selection (editorObj (world o) editor) = Some sel' /\
    commands (effects o) =
      if canRemoveText anchorNode focusNode then [("removeText", NoPayload)] else []).
  { subst o anchorNode focusNode sel' nd.
    unfold onBeforeInput, beforeInputSwitch, applyTargetRange, targetedSelection.
    rewrite Htype. unfold_M. cbn. rewrite Hsel. cbn.
    destruct (negb (dirty sel) && isCollapsed sel &&
              negb (isRootNode (getNode (nodes (editorObj w editor)) (anchor sel))));
      [destruct (getTargetRanges event) as [[|r rs]|]|]; cbn;
      rewrite ?fn_lookup_insert, ?Hsel; cbn;
      match goal with
      | |- context [canRemoveText ?a ?f] => destruct (canRemoveText a f)
      end; cbn; rewrite ?fn_lookup_insert, ?Hsel; cbn; auto. }
  destruct Hrun as [Hfinal Hcmds]. split; [exact Hfinal|].
  rewrite Hcmds. split.
  - intros Hat. destruct (canRemoveText anchorNode focusNode); [|reflexivity].
    exfalso. by apply Hcan.
  - intros Hnat. apply Hcan in Hnat. by rewrite Hnat.
Qed.

End BeforeInput.

(** A [deleteWordBackward] with a target range, the caret in a word. *)
Lemma onBeforeInput_deleteWordBackward_witness :
  let r := mkStaticRange 9 0 9 1 in
  let event := mkEvent "beforeinput" EmptyString 0 false false false false
                       "deleteWordBackward" None None (Some [r]) in
  effects (onBeforeInput event Sample.root Sample.world0) =
    [ Update Sample.root; ApplyDOMRange Sample.root r; PreventDefault event;
      ExecCommand Sample.root "deleteWord" (PBool true) ].
Proof.
  intros r event.
  destruct (onBeforeInput_deleteWordBackward
              Sample.world0 event Sample.root (Sample.caretAt "t" 1 text)
              eq_refl eq_refl) as (_ & _ & Heff).
  rewrite Heff. reflexivity.
Defined.

(** A [deleteByComposition] with the caret in the inert mention ["m"] is
    suppressed; with the caret in the word ["t"] it removes text. *)
Lemma onBeforeInput_deleteByComposition_witness :
  let event := Sample.inputEvent "beforeinput" "deleteByComposition" None in
  let mention := Sample.caretAt "m" 0 text in
  let w := Sample.withDocument Sample.root Sample.paragraph
             (Some mention) (Some mention) Sample.world0 in
  commands (effects (onBeforeInput event Sample.root w)) = [] /\
  commands (effects (onBeforeInput event Sample.root Sample.world0)) =
    [("removeText", NoPayload)].
Proof.
  intros event mention w. split.
  - destruct (onBeforeInput_deleteByComposition w event Sample.root mention
                eq_refl eq_refl) as (_ & Hsuppressed & _).
    apply Hsuppressed. vm_compute. auto.
  - destruct (onBeforeInput_deleteByComposition
                Sample.world0 event Sample.root (Sample.caretAt "t" 1 text)
                eq_refl eq_refl) as (_ & _ & Hdispatched).
    apply Hdispatched. vm_compute. intros (_ & _ & H). discriminate H.
Defined.

(** ** Composition *)
Section Composition.
Context {env : Environment} {keys : KeyPredicates} {engine : Engine}.

(** C5 (as the code has it).  For a composition start with a collapsed
    selection whose anchor is a text point, an idle editor and the
    soft-key flag false, [onCompositionStart] completes and issues
    exactly one command, [insertText] with payload [" "]; the command is
    issued after the composition key has been recorded, so the editor is
    already composing when it is dispatched, and it composes afterwards. *)
Theorem onCompositionStart_space_after_key
    (w : World) (event : Event) (editor : LexicalEditor) (sel : RangeSelection) :
  selection (editorObj w editor) = Some sel ->
  isCollapsed sel = true ->
  type (anchor sel) = text ->
  _compositionKey (editorObj w editor) = None ->
  lastKeyWasMaybeAndroidSoftKey w = false ->
  let o := onCompositionStart event editor w in
  result o = Ok tt /\
  effects o = [ Update editor;
                SetCompositionKey editor (Some (key (anchor sel)));
                ExecCommand editor "insertText" (PString " ") ] /\
  commands (effects o) = [("insertText", PString " ")] /\
  occurs_before is_setCompositionKey is_insertText_space (effects o) = true /\
  occurs_before is_insertText_space is_setCompositionKey (effects o) = false /\
  _compositionKey (editorObj (world o) editor) = Some (key (anchor sel)).
Proof.
  intros Hsel Hcollapsed Htext Hidle Hflag.
  unfold onCompositionStart. unfold_M. cbn.
  rewrite Hsel, Hidle. cbn. rewrite Hflag. cbn.
  rewrite fn_lookup_insert. cbn. auto 10.
Qed.

(** C8. On Firefox [onCompositionEnd] does nothing in its own turn but
    schedule the reconciliation on the timer queue: the composition key
    stays as it was, and when the text-input event that the platform
    fires after the composition end has been handled, the later turn of
    the event loop runs the reconciliation (clear the composition key,
    reconcile the text of the surface) after the calls of [onInput].
    On every other platform the reconciliation runs inside
    [onCompositionEnd] and nothing is scheduled. *)
Theorem onCompositionEnd_deferred_on_firefox
    (w : World) (event : Event) (editor : LexicalEditor) :
  let o := onCompositionEnd event editor w in
  let reconciliation :=
    [ Update editor; SetCompositionKey editor None;
      UpdateSelectedTextFromDOM editor true ] in
  if IS_FIREFOX then
    effects o = [] /\
    world o = set_timers (timers w ++ [CompositionEndTask event editor]) w /\
    forall input : Event,
      let turn := onCompositionEnd event editor ;; onInput input editor ;; runTimers in
      timers w = [] ->
      result (turn w) = Ok tt /\
      effects (turn w) = effects (onInput input editor w) ++ reconciliation /\
      _compositionKey (editorObj (world (turn w)) editor) = None /\
      timers (world (turn w)) = []
  else
    result o = Ok tt /\
    effects o = reconciliation /\
    timers (world o) = timers w /\
    _compositionKey (editorObj (world o) editor) = None.
Proof.
  unfold onCompositionEnd. destruct IS_FIREFOX.
  - split; [reflexivity|]. split; [reflexivity|].
    intros input Hq.
    unfold onInput, runTimers, reportError, runTask, onCompositionEndInternal.
    unfold_M. cbn. rewrite Hq. cbn.
    destruct (data input) as [d|], (selection (editorObj w editor)) as [s|]; cbn;
      try destruct (shouldPreventDefaultAndInsertText _ _ _ _); cbn;
      rewrite ?fn_lookup_insert; auto.
  - unfold onCompositionEndInternal. unfold_M. cbn.
    rewrite fn_lookup_insert. auto.
Qed.

End Composition.

(** On Firefox the composition end only schedules the reconciliation; on
    Chromium it reconciles at once. *)
Lemma onCompositionEnd_deferred_on_firefox_witness :
  let event := Sample.inputEvent "compositionend" EmptyString None in
  let input := Sample.inputEvent "input" "insertCompositionText" (Some "x") in
  let reconciliation :=
    [ Update Sample.root; SetCompositionKey Sample.root None;
      UpdateSelectedTextFromDOM Sample.root true ] in
  (effects (onCompositionEnd (env := Sample.firefox) event Sample.root Sample.world0)
     = [] /\
   effects ((onCompositionEnd (env := Sample.firefox) event Sample.root ;;
             onInput input Sample.root ;; runTimers) Sample.world0)
     = [ StopPropagation input; Update Sample.root;
         ExecCommand Sample.root "insertText" (PString "x");
         FlushMutations Sample.root ] ++ reconciliation) /\
  effects (onCompositionEnd (env := Sample.chromium) event Sample.root Sample.world0)
    = reconciliation.
Proof.
  intros event input reconciliation. split.
  - pose proof (onCompositionEnd_deferred_on_firefox
                  (env := Sample.firefox) Sample.world0 event Sample.root) as H.
    cbn [IS_FIREFOX Sample.firefox] in H. destruct H as (Hnone & _ & Hturn).
    split; [exact Hnone|].
    destruct (Hturn input eq_refl) as (_ & Heff & _). rewrite Heff. reflexivity.
  - pose proof (onCompositionEnd_deferred_on_firefox
                  (env := Sample.chromium) Sample.world0 event Sample.root) as H.
    cbn [IS_FIREFOX Sample.chromium] in H. by destruct H as (_ & Heff & _).
Defined.

(** A composition start with the caret in the word ["t"], an idle editor
    and the soft-key flag false. *)
Lemma onCompositionStart_space_after_key_witness :
  let event := Sample.inputEvent "compositionstart" EmptyString None in
  effects (onCompositionStart event Sample.root Sample.world0) =
    [ Update Sample.root; SetCompositionKey Sample.root (Some "t");
      ExecCommand Sample.root "insertText" (PString " ") ].
Proof.
  intros event.
  destruct (onCompositionStart_space_after_key
              Sample.world0 event Sample.root (Sample.caretAt "t" 1 text)
              eq_refl eq_refl eq_refl eq_refl eq_refl) as (_ & Heff & _).
  exact Heff.
Defined.

(** C5 as stated fails: on the same input (collapsed selection with a
    text anchor, idle editor, soft-key flag false) the command
    [insertText " "] is not issued before the composition key is
    recorded; the key is recorded first. *)
Lemma onCompositionStart_space_not_before_key :
  let event := Sample.inputEvent "compositionstart" EmptyString None in
  let w := Sample.world0 in
  let log := effects (onCompositionStart event Sample.root w) in
  selection (editorObj w Sample.root) = Some (Sample.caretAt "t" 1 text) /\
  isCollapsed (Engine := Sample.engine) (Sample.caretAt "t" 1 text) = true /\
  _compositionKey (editorObj w Sample.root) = None /\
  lastKeyWasMaybeAndroidSoftKey w = false /\
  log = [ Update Sample.root; SetCompositionKey Sample.root (Some "t");
          ExecCommand Sample.root "insertText" (PString " ") ] /\
  occurs_before is_insertText_space is_setCompositionKey log = false.
Proof. vm_compute. repeat split. Qed.

(** ** Click *)
Section Click.
Context {env : Environment} {keys : KeyPredicates} {engine : Engine}.

(** C9. [onClick] clears the native selection and marks the selection
    dirty exactly when the selection is not null, its anchor is an
    element point at offset 0, it is collapsed, the root has exactly one
    child, the top-level element of the anchor node exists and is empty,
    and the selection is the same as the (non-null) selection committed
    last.  The selection of the editor then has [dirty = true], and its
    anchor, focus and format are those it had.  When one of the
    conditions fails, the native selection is not touched and nothing in
    the world changes (so the [dirty] field stays as it was). *)
Theorem onClick_clears_exactly_when
    (w : World) (event : Event) (editor : LexicalEditor) :
  let o := onClick event editor w in
  let ed := editorObj w editor in
  let clears :=
    exists sel last top,
      selection ed = Some sel /\
      type (anchor sel) = element /\
      offset (anchor sel) = 0%nat /\
      isCollapsed sel = true /\
      rootChildrenSize (nodes ed) = 1%nat /\
      getTopLevelElementOrThrow (nodes ed) (getNode (nodes ed) (anchor sel)) = Some top /\
      isEmpty (nodes ed) top = true /\
      _selection ed = Some last /\
      selection_is sel last = true in
  (clears ->
   exists sel marked,
     selection ed = Some sel /\
     result o = Ok tt /\
     effects o = [Update editor; RemoveAllRanges] /\
     selection (editorObj (world o) editor) = Some marked /\
     dirty marked = true /\
     anchor marked = anchor sel /\
     focus marked = focus sel /\
     format marked = format sel) /\
  (~ clears ->
   effects o = [Update editor] /\ world o = w).
Proof.
  intros o ed clears. subst o clears ed. split.
  - intros (sel & last & top & Hsel & Htype & Hoff & Hcol & Hroot & Htop & Hempty
            & Hlast & His).
    exists sel, (with_dirty true sel). split; [exact Hsel|].
    unfold onClick. unfold_M. cbn. rewrite Hsel. cbn.
    rewrite Htype, Hoff, Hcol, Hroot, Htop.
    rewrite bool_decide_eq_true_2 by reflexivity. cbn.
    rewrite Hempty. cbn. rewrite Hlast. cbn. rewrite His. cbn.
    rewrite fn_lookup_insert. auto 10.
  - intros Hno.
    unfold onClick. unfold_M. cbn.
    destruct (selection (editorObj w editor)) as [sel|] eqn:Hsel; cbn; [|auto].
    destruct (bool_decide (type (anchor sel) = element)) eqn:Htype; cbn; [|auto].
    destruct (Nat.eqb (offset (anchor sel)) 0) eqn:Hoff; cbn; [|auto].
    destruct (isCollapsed sel) eqn:Hcol; cbn; [|auto].
    destruct (Nat.eqb (rootChildrenSize (nodes (editorObj w editor))) 1) eqn:Hroot;
      cbn; [|auto].
    destruct (getTopLevelElementOrThrow (nodes (editorObj w editor))
                (getNode (nodes (editorObj w editor)) (anchor sel)))
      as [top|] eqn:Htop; cbn; [|auto].
    destruct (isEmpty (nodes (editorObj w editor)) top) eqn:Hempty; cbn; [|auto].
    destruct (_selection (editorObj w editor)) as [last|] eqn:Hlast; cbn; [|auto].
    destruct (selection_is sel last) eqn:His; cbn; [|auto].
    exfalso. apply Hno. exists sel, last, top.
    apply bool_decide_eq_true in Htype. apply Nat.eqb_eq in Hoff, Hroot.
    auto 10.
Qed.

End Click.

(** A click with the caret at offset 0 of the only, empty paragraph,
    where it was committed: the native selection is cleared and the
    selection, which was not dirty, is dirty.  A click with the caret in
    a word: nothing. *)
Lemma onClick_clears_exactly_when_witness :
  let click := Sample.inputEvent "click" EmptyString None in
  let caret := Sample.caretAt "p" 0 element in
  let w := Sample.withDocument Sample.root Sample.emptyParagraph
             (Some caret) (Some caret) Sample.world0 in
  (dirty caret = false /\
   effects (onClick click Sample.root w) = [Update Sample.root; RemoveAllRanges] /\
   exists marked,
     selection (editorObj (world (onClick click Sample.root w)) Sample.root)
       = Some marked /\
     dirty marked = true /\
     anchor marked = anchor caret) /\
  effects (onClick click Sample.root Sample.world0) = [Update Sample.root].
Proof.
  intros click caret w. split.
  - destruct (onClick_clears_exactly_when w click Sample.root) as [Hclears _].
    destruct Hclears
      as (sel & marked & Hsel & _ & Heff & Hmarked & Hdirty & Hanchor & _).
    + exists caret, caret, (Sample.BlockNode "p" 0). vm_compute. repeat split.
    + vm_compute in Hsel. injection Hsel as <-.
      split; [reflexivity|]. split; [exact Heff|].
      exists marked. split; [exact Hmarked|]. split; assumption.
  - destruct (onClick_clears_exactly_when Sample.world0 click Sample.root)
      as [_ Hnot].
    apply Hnot. intros (sel & last & top & Hsel & Htype & _).
    vm_compute in Hsel. injection Hsel as <-. discriminate Htype.
Defined.

(** ** Loops *)
Section Loops.
Context {env : Environment} {keys : KeyPredicates} {engine : Engine}.

(** A loop whose body always completes without a call completes without
    a call, in the world obtained by folding the body. *)
Lemma for_each_pure {A : Type} (body : A -> M unit) (l : list A) (w : World) :
  (forall x w, result (body x w) = Ok tt /\ effects (body x w) = []) ->
  for_each l body w =
  mkOutcome (Ok tt) (fold_left (fun w x => world (body x w)) l w) [].
Proof.
  intros Hbody. revert w. induction l as [|x l IH]; intros w; cbn.
  - reflexivity.
  - unfold bind. specialize (Hbody x w). specialize (IH (world (body x w))).
    destruct (body x w) as [r w1 log1]. cbn in *. destruct Hbody as [-> ->].
    by rewrite IH.
Qed.

(** A loop whose body has no call has no call. *)
Lemma for_each_silent {A : Type} (body : A -> M unit) (l : list A) (w : World) :
  (forall x w, effects (body x w) = []) ->
  effects (for_each l body w) = [].
Proof.
  intros Hbody. revert w. induction l as [|x l IH]; intros w; cbn.
  - reflexivity.
  - unfold bind. specialize (Hbody x w).
    destruct (body x w) as [[[]|err] w1 log1]; cbn in *; [|exact Hbody].
    specialize (IH w1). destruct (for_each l body w1) as [r2 w2 log2].
    cbn in *. by rewrite Hbody, IH.
Qed.

End Loops.

(** ** Attach and detach *)
Section Registration.
Context {env : Environment} {keys : KeyPredicates} {engine : Engine}.

(* The loops are unfolded by their lemmas, not by computation. *)
#[local] Arguments for_each : simpl never.
#[local] Arguments rootElementEvents : simpl never.
#[local] Arguments cleanActiveNestedEditorsMap : simpl never.

Lemma same_outside_elements_refl (w : World) : same_outside_elements w w.
Proof. by repeat split. Qed.

Lemma same_outside_elements_trans (w1 w2 w3 : World) :
  same_outside_elements w1 w2 -> same_outside_elements w2 w3 ->
  same_outside_elements w1 w3.
Proof.
  intros (a1 & a2 & a3 & a4 & a5) (b1 & b2 & b3 & b4 & b5).
  repeat split; congruence.
Qed.

Lemma same_attributes_refl (w : World) : same_attributes w w.
Proof. by intros x. Qed.

Lemma same_attributes_trans (w1 w2 w3 : World) :
  same_attributes w1 w2 -> same_attributes w2 w3 -> same_attributes w1 w3.
Proof.
  intros H12 H23 x. destruct (H12 x) as (a1 & a2 & a3), (H23 x) as (b1 & b2 & b3).
  repeat split; congruence.
Qed.

(** One iteration of the loop of [addRootElementEvents]. *)
Lemma registerEntry_spec (r : nat) (e : LexicalEditor) (entry : string * OnEvent)
    (w : World) :
  let o := registerEntry r e entry w in
  result o = Ok tt /\
  effects o = [] /\
  closures (world o) = S (closures w) /\
  listeners (elementObj (world o) r) =
    add_listener (listeners (elementObj w r))
                 (mkListener (fst entry) (closures w) (snd entry) e) /\
  _lexicalEventHandles (elementObj (world o) r) =
    Some (default [] (_lexicalEventHandles (elementObj w r)) ++
          [mkRemoveHandle r (fst entry) (closures w)]) /\
  (forall x, x <> r -> elementObj (world o) x = elementObj w x) /\
  same_outside_elements w (world o) /\
  same_attributes w (world o).
Proof.
  unfold registerEntry, newClosure, addEventListener, pushRemoveHandle.
  unfold_M. cbn. rewrite !fn_lookup_insert. cbn.
  split; [reflexivity|]. split; [reflexivity|]. split; [reflexivity|].
  split; [reflexivity|]. split; [reflexivity|].
  split; [intros x Hx; by rewrite !fn_lookup_insert_ne|].
  split; [by repeat split|].
  intros x. cbn. destruct (decide (r = x)) as [<-|Hx];
    [by rewrite !fn_lookup_insert | by rewrite !fn_lookup_insert_ne].
Qed.

(** The loop of [addRootElementEvents] over a table. *)
Lemma registerEntries_spec (r : nat) (e : LexicalEditor)
    (table : list (string * OnEvent)) (w : World) (h : list RemoveHandle) :
  _lexicalEventHandles (elementObj w r) = Some h ->
  let w' := fold_left (fun w x => world (registerEntry r e x w)) table w in
  closures w' = (closures w + length table)%nat /\
  listeners (elementObj w' r) =
    fold_left add_listener (listenersFrom (closures w) e table)
              (listeners (elementObj w r)) /\
  _lexicalEventHandles (elementObj w' r) =
    Some (h ++ handlesFrom r (closures w) table) /\
  (forall x, x <> r -> elementObj w' x = elementObj w x) /\
  same_outside_elements w w' /\
  same_attributes w w'.
Proof.
  revert w h. induction table as [|entry table IH]; intros w h Hh;
    cbn [fold_left listenersFrom handlesFrom length].
  - rewrite Nat.add_0_r, app_nil_r.
    auto 10 using same_outside_elements_refl, same_attributes_refl.
  - destruct (registerEntry_spec r e entry w)
      as (_ & _ & Hc & Hl & Hhs & Hother & Hout & Hattr).
    rewrite Hh in Hhs. cbn in Hhs.
    destruct (IH _ _ Hhs) as (Hc' & Hl' & Hhs' & Hother' & Hout' & Hattr').
    rewrite Hc in Hc', Hl', Hhs'. rewrite Hl in Hl'.
    split; [rewrite Hc'; lia|]. split; [exact Hl'|].
    split; [by rewrite Hhs', <- app_assoc|].
    split; [intros x Hx; rewrite Hother' by exact Hx; by apply Hother|].
    split; [by eapply same_outside_elements_trans
           |by eapply same_attributes_trans].
Qed.

(** [addRootElementEvents]: it completes without a call, makes one
    function object per entry of the table, registers them after the
    listeners that the element has and pushes their removal handles
    after the handles that it has. *)
Lemma addRootElementEvents_spec (r : nat) (e : LexicalEditor) (w : World) :
  let o := addRootElementEvents r e w in
  result o = Ok tt /\
  effects o = [] /\
  closures (world o) = (closures w + length rootElementEvents)%nat /\
  listeners (elementObj (world o) r) =
    fold_left add_listener (listenersFrom (closures w) e rootElementEvents)
              (listeners (elementObj w r)) /\
  _lexicalEventHandles (elementObj (world o) r) =
    Some (default [] (_lexicalEventHandles (elementObj w r)) ++
          handlesFrom r (closures w) rootElementEvents) /\
  (forall x, x <> r -> elementObj (world o) x = elementObj w x) /\
  same_outside_elements w (world o) /\
  same_attributes w (world o).
Proof.
  unfold addRootElementEvents, getRootElementRemoveHandles. unfold_M. cbn.
  destruct (_lexicalEventHandles (elementObj w r)) as [h|] eqn:Hh; cbn.
  - rewrite for_each_pure.
    2:{ intros x w0. destruct (registerEntry_spec r e x w0) as (? & ? & _). auto. }
    cbn.
    destruct (registerEntries_spec r e rootElementEvents w h Hh)
      as (? & ? & ? & ? & ? & ?). auto 10.
  - set (w0 := set_element r (with_handles (Some []) (elementObj w r)) w).
    rewrite for_each_pure.
    2:{ intros x w1. destruct (registerEntry_spec r e x w1) as (? & ? & _). auto. }
    cbn.
    assert (Hh0 : _lexicalEventHandles (elementObj w0 r) = Some []).
    { subst w0. cbn. by rewrite fn_lookup_insert. }
    destruct (registerEntries_spec r e rootElementEvents w0 [] Hh0)
      as (Hc & Hl & Hhs & Hother & Hout & Hattr).
    assert (Hl0 : listeners (elementObj w0 r) = listeners (elementObj w r)).
    { subst w0. cbn. by rewrite fn_lookup_insert. }
    rewrite Hl0 in Hl.
    split; [reflexivity|]. split; [reflexivity|].
    split; [exact Hc|]. split; [exact Hl|]. split; [exact Hhs|].
    split.
    { intros x Hx. rewrite Hother by exact Hx. subst w0. cbn.
      by rewrite fn_lookup_insert_ne. }
    split; [exact Hout|].
    intros x. destruct (Hattr x) as (a1 & a2 & a3). rewrite a1, a2, a3.
    subst w0. cbn.
    destruct (decide (r = x)) as [->|Hx];
      [by rewrite fn_lookup_insert | by rewrite fn_lookup_insert_ne].
Qed.

(** Function objects made later than every registered one are all
    registered: [addEventListener] skips none of them. *)
Lemma add_fresh_listeners (ls : list Listener) (n : nat) (e : LexicalEditor)
    (table : list (string * OnEvent)) :
  (forall l, l ∈ ls -> (l_closure l < n)%nat) ->
  fold_left add_listener (listenersFrom n e table) ls =
  ls ++ listenersFrom n e table.
Proof.
  revert ls n. induction table as [|entry table IH]; intros ls n Hold; cbn.
  - by rewrite app_nil_r.
  - assert (Hnew : add_listener ls (mkListener (fst entry) n (snd entry) e) =
                   ls ++ [mkListener (fst entry) n (snd entry) e]).
    { unfold add_listener; cbn.
      destruct (existsb _ ls) eqn:Hex; [|reflexivity].
      apply existsb_exists in Hex as (l & Hin & Hsame).
      apply list_elem_of_In, Hold in Hin.
      unfold same_listener in Hsame.
      apply andb_true_iff in Hsame as [_ Hsame%Nat.eqb_eq]. lia. }
    rewrite Hnew, IH, <- app_assoc; [reflexivity|].
    intros l [Hl|Hl%list_elem_of_singleton]%elem_of_app.
    + apply Hold in Hl. lia.
    + subst l. cbn. lia.
Qed.

(** [cleanActiveNestedEditorsMap] of an editor completes and writes
    nothing but the map. *)
Lemma cleanActiveNestedEditorsMap_spec (e : LexicalEditor) (w : World) :
  let o := cleanActiveNestedEditorsMap (Val e) w in
  result o = Ok tt /\
  effects o = [] /\
  activeNestedEditorsMap (world o) = cleanedMap e (activeNestedEditorsMap w) /\
  elementObj (world o) = elementObj w /\
  closures (world o) = closures w /\
  lastKeyWasMaybeAndroidSoftKey (world o) = lastKeyWasMaybeAndroidSoftKey w /\
  editorObj (world o) = editorObj w /\
  documentObj (world o) = documentObj w /\
  timers (world o) = timers w.
Proof.
  unfold cleanActiveNestedEditorsMap, cleanedMap, rootEditorOf. unfold_M.
  destruct (_parentEditor e); cbn; [|auto 10].
  destruct (bool_decide _); cbn; auto 10.
Qed.

Lemma remaining_nil (x : nat) (ls : list Listener) : remaining x [] ls = ls.
Proof.
  unfold remaining. induction ls as [|l ls IH]; cbn in *; [reflexivity|].
  by rewrite IH.
Qed.

(** A handle of another element removes nothing. *)
Lemma remaining_other (x : nat) (h : RemoveHandle) (ls : list Listener) :
  rh_rootElement h <> x -> remaining x [h] ls = ls.
Proof.
  intros Hx%Nat.eqb_neq. unfold remaining, removes.
  induction ls as [|l ls IH]; cbn in *; [reflexivity|].
  rewrite Hx in *. cbn in *. by rewrite IH.
Qed.

(** Calling one removal handle. *)
Lemma callRemoveHandle_spec (h : RemoveHandle) (w : World) :
  let o := callRemoveHandle h w in
  result o = Ok tt /\
  effects o = [] /\
  (forall x,
      listeners (elementObj (world o) x) =
        remaining x [h] (listeners (elementObj w x)) /\
      _lexicalEventHandles (elementObj (world o) x) =
        _lexicalEventHandles (elementObj w x)) /\
  closures (world o) = closures w /\
  same_outside_elements w (world o) /\
  same_attributes w (world o).
Proof.
  unfold callRemoveHandle, removeEventListener, remaining, removes, remove_listener.
  unfold_M. cbn.
  split; [reflexivity|]. split; [reflexivity|]. split; [|split; [reflexivity|split]].
  - intros x. destruct (decide (rh_rootElement h = x)) as [<-|Hx].
    + rewrite fn_lookup_insert. cbn. rewrite Nat.eqb_refl. split; [|reflexivity].
      apply filter_ext. intros l. cbn. by rewrite orb_false_r.
    + rewrite fn_lookup_insert_ne by exact Hx. split; [|reflexivity].
      symmetry. by apply (remaining_other x h).
  - by repeat split.
  - intros x. cbn. destruct (decide (rh_rootElement h = x)) as [<-|Hx];
      [by rewrite fn_lookup_insert | by rewrite fn_lookup_insert_ne].
Qed.

Lemma remaining_cons (x : nat) (h : RemoveHandle) (hs : list RemoveHandle)
    (ls : list Listener) :
  remaining x hs (remaining x [h] ls) = remaining x (h :: hs) ls.
Proof.
  unfold remaining. induction ls as [|l ls IH]; cbn in *; [reflexivity|].
  rewrite orb_false_r.
  destruct (removes x h l); cbn; [exact IH|].
  destruct (existsb _ hs); cbn; [exact IH|]. by rewrite IH.
Qed.

(** The loop of [removeRootElementEvents] over the handles. *)
Lemma callRemoveHandles_spec (hs : list RemoveHandle) (w : World) :
  let w' := fold_left (fun w h => world (callRemoveHandle h w)) hs w in
  (forall x,
      listeners (elementObj w' x) = remaining x hs (listeners (elementObj w x)) /\
      _lexicalEventHandles (elementObj w' x) =
        _lexicalEventHandles (elementObj w x)) /\
  closures w' = closures w /\
  same_outside_elements w w' /\
  same_attributes w w'.
Proof.
  revert w. induction hs as [|h hs IH]; intros w; cbn [fold_left].
  - split; [|auto using same_outside_elements_refl, same_attributes_refl].
    intros x. split; [|reflexivity]. by rewrite remaining_nil.
  - destruct (callRemoveHandle_spec h w) as (_ & _ & Hx & Hc & Hout & Hattr).
    destruct (IH (world (callRemoveHandle h w))) as (Hx' & Hc' & Hout' & Hattr').
    split; [|split; [congruence|split]].
    + intros x. destruct (Hx x) as [Hl Hh], (Hx' x) as [Hl' Hh'].
      rewrite Hl', Hl, Hh', Hh. by rewrite remaining_cons.
    + by eapply same_outside_elements_trans.
    + by eapply same_attributes_trans.
Qed.

(** [removeRootElementEvents] on an element whose back-reference is an
    editor: it completes without a call, cleans the map for that editor,
    clears the back-reference, calls every handle of the element and
    leaves it with an empty handle list. *)
Lemma removeRootElementEvents_spec (r : nat) (e : LexicalEditor) (w : World) :
  __lexicalEditor (elementObj w r) = Val e ->
  let o := removeRootElementEvents r w in
  let hs := default [] (_lexicalEventHandles (elementObj w r)) in
  result o = Ok tt /\
  effects o = [] /\
  listeners (elementObj (world o) r) = remaining r hs (listeners (elementObj w r)) /\
  _lexicalEventHandles (elementObj (world o) r) = Some [] /\
  __lexicalEditor (elementObj (world o) r) = Null /\
  activeNestedEditorsMap (world o) = cleanedMap e (activeNestedEditorsMap w) /\
  editorObj (world o) = editorObj w /\
  timers (world o) = timers w /\
  (forall x, contentEditable (elementObj (world o) x) =
             contentEditable (elementObj w x)).
Proof.
  intros Hback hs0. subst hs0.
  pose proof (cleanActiveNestedEditorsMap_spec e w) as Hspec. cbv zeta in Hspec.
  unfold removeRootElementEvents, getRootElementRemoveHandles,
    clearRootElementRemoveHandles.
  unfold_M. cbn. rewrite Hback.
  destruct (cleanActiveNestedEditorsMap (Val e) w) as [r1 w1 log1]. cbn in Hspec.
  destruct Hspec as (-> & -> & Hm & Hel & Hc & Hk & Hed & Hd & Ht). cbn.
  rewrite fn_lookup_insert. cbn. rewrite Hel.
  destruct (_lexicalEventHandles (elementObj w r)) as [hs|] eqn:Hhs; cbn.
  - match goal with
    | |- context [for_each hs callRemoveHandle ?w0] => set (w2 := w0)
    end.
    pose proof (callRemoveHandles_spec hs w2) as Hloop. cbv zeta in Hloop.
    rewrite for_each_pure.
    2:{ intros h w0. destruct (callRemoveHandle_spec h w0) as (? & ? & _). auto. }
    set (w3 := fold_left _ hs w2) in *.
    destruct Hloop as (Hx & _ & Hout & Hattr).
    cbn. rewrite fn_lookup_insert. cbn.
    destruct (Hx r) as [Hl _]. destruct Hout as (_ & Hm2 & Hed2 & _ & Ht2).
    rewrite Hl, Hm2, Hed2, Ht2. subst w2. cbn. rewrite fn_lookup_insert. cbn.
    destruct (Hattr r) as (_ & _ & Hb). cbn in Hb. rewrite fn_lookup_insert in Hb.
    repeat split; try assumption.
    intros x. destruct (Hattr x) as (Hce & _). cbn in Hce.
    destruct (decide (r = x)) as [<-|Hne].
    + rewrite fn_lookup_insert. cbn. rewrite Hce. by rewrite fn_lookup_insert.
    + rewrite fn_lookup_insert_ne by exact Hne. rewrite Hce.
      rewrite fn_lookup_insert_ne by exact Hne. by rewrite Hel.
  - unfold for_each. cbn. rewrite !fn_lookup_insert. cbn. rewrite remaining_nil.
    repeat split; try assumption.
    intros x. destruct (decide (r = x)) as [<-|Hne].
    + by rewrite !fn_lookup_insert.
    + rewrite !fn_lookup_insert_ne by exact Hne. by rewrite Hel.
Qed.

(** Handles that cover the listeners leave none. *)
Lemma remaining_covered (r : nat) (hs : list RemoveHandle) (ls : list Listener) :
  covered r hs ls -> remaining r hs ls = [].
Proof.
  unfold covered, remaining. induction ls as [|l ls IH]; intros Hcov; cbn.
  - reflexivity.
  - destruct (Hcov l) as (h & Hin & Hrem); [apply list_elem_of_here|].
    assert (Hex : existsb (fun h => removes r h l) hs = true).
    { apply existsb_exists. exists h. split; [by apply list_elem_of_In|exact Hrem]. }
    rewrite Hex. cbn. apply IH. intros l' Hl'. apply Hcov.
    by apply list_elem_of_further.
Qed.

(** The handles pushed by one call of [addRootElementEvents] cover the
    listeners that it makes. *)
Lemma handlesFrom_covers (r n : nat) (e : LexicalEditor)
    (table : list (string * OnEvent)) :
  covered r (handlesFrom r n table) (listenersFrom n e table).
Proof.
  revert n. induction table as [|entry table IH]; intros n l Hl; cbn in *.
  - by apply elem_of_nil in Hl.
  - apply elem_of_cons in Hl as [->|Hl].
    + exists (mkRemoveHandle r (fst entry) n). split; [apply list_elem_of_here|].
      unfold removes, same_listener. cbn.
      by rewrite !Nat.eqb_refl, String.eqb_refl.
    + destruct (IH (S n) l Hl) as (h & Hin & Hrem).
      exists h. split; [by apply list_elem_of_further|exact Hrem].
Qed.

Lemma covered_app (r : nat) (hs1 hs2 : list RemoveHandle) (ls1 ls2 : list Listener) :
  covered r hs1 ls1 -> covered r hs2 ls2 -> covered r (hs1 ++ hs2) (ls1 ++ ls2).
Proof.
  intros H1 H2 l [Hl|Hl]%elem_of_app.
  - destruct (H1 l Hl) as (h & Hin & Hrem). exists h. split; [|exact Hrem].
    apply elem_of_app. by left.
  - destruct (H2 l Hl) as (h & Hin & Hrem). exists h. split; [|exact Hrem].
    apply elem_of_app. by right.
Qed.

Lemma covered_more (r : nat) (hs0 hs : list RemoveHandle) (ls : list Listener) :
  covered r hs ls -> covered r (hs0 ++ hs) ls.
Proof.
  intros H l Hl. destruct (H l Hl) as (h & Hin & Hrem). exists h.
  split; [|exact Hrem]. apply elem_of_app. by right.
Qed.

End Registration.

(** ** Dispatch to the registered listeners *)
Section Dispatch.
Context {env : Environment} {keys : KeyPredicates} {engine : Engine}.

Lemma outcome_eta {A : Type} (o : Outcome A) :
  o = mkOutcome (result o) (world o) (effects o).
Proof. by destruct o. Qed.

(** Pass-through listeners of editable editors: each one sends the
    command named after the event, with the raw event, and the world
    stays as it is. *)
Lemma passthrough_listeners (event : Event) (ls : list Listener) (w : World) :
  (forall l, l ∈ ls ->
     l_onEvent l = PASS_THROUGH_COMMAND /\ rootEditable w (l_editor l) = true) ->
  for_each ls (fun l => reportError (eventHandler l event)) w =
  mkOutcome (Ok tt) w
    (map (fun l => ExecCommand (l_editor l) (l_eventName l) (PEvent event)) ls).
Proof.
  induction ls as [|l ls IH]; intros Hls; cbn [for_each map].
  - reflexivity.
  - destruct (Hls l) as [Hpass Hedit]; [apply list_elem_of_here|].
    assert (Hl : reportError (eventHandler l event) w =
                 mkOutcome (Ok tt) w
                   [ExecCommand (l_editor l) (l_eventName l) (PEvent event)]).
    { unfold reportError, eventHandler, isRootEditable. unfold_M. cbn.
      by rewrite Hedit, Hpass. }
    unfold bind at 1. rewrite Hl, IH; [reflexivity|].
    intros l' Hl'. apply Hls. by apply list_elem_of_further.
Qed.

Lemma invokeListeners_passthrough (r : nat) (event : Event) (w : World) :
  (forall l, l ∈ listeners (elementObj w r) ->
     (l_eventName l =? event_type event)%string = true ->
     l_onEvent l = PASS_THROUGH_COMMAND /\ rootEditable w (l_editor l) = true) ->
  invokeListeners r event w =
  mkOutcome (Ok tt) w
    (map (fun l => ExecCommand (l_editor l) (l_eventName l) (PEvent event))
         (List.filter (fun l => (l_eventName l =? event_type event)%string)
                      (listeners (elementObj w r)))).
Proof.
  intros Hls. unfold invokeListeners. unfold mbind, M_bind, bind, gets.
  rewrite passthrough_listeners; [reflexivity|].
  intros l [Hin%list_elem_of_In Hname]%list_elem_of_In%filter_In. by apply Hls.
Qed.

(** No listener, no call. *)
Lemma invokeListeners_no_listener (r : nat) (event : Event) (w : World) :
  listeners (elementObj w r) = [] ->
  invokeListeners r event w = mkOutcome (Ok tt) w [].
Proof.
  intros Hnone. unfold invokeListeners. unfold_M. cbn. by rewrite Hnone.
Qed.

(** The listeners of an element never leave an exception behind. *)
Lemma invokeListeners_ok (r : nat) (event : Event) (w : World) :
  result (invokeListeners r event w) = Ok tt.
Proof.
  unfold invokeListeners. unfold mbind, M_bind, bind, gets.
  generalize (List.filter (fun l => (l_eventName l =? event_type event)%string)
                          (listeners (elementObj w r))).
  intros ls.
  assert (H : forall w0, result (for_each ls
                (fun l => reportError (eventHandler l event)) w0) = Ok tt).
  { induction ls as [|l ls IH]; intros w0; cbn [for_each]; [reflexivity|].
    unfold bind, reportError at 1.
    destruct (eventHandler l event w0) as [r1 w1 log1].
    specialize (IH w1). by destruct (for_each ls _ w1). }
  specialize (H w). by destruct (for_each ls _ w).
Qed.

(** One step of the propagation: the listeners of the first element of
    the path run; the event then stops or goes on to the ancestors. *)
Lemma dispatchEvent_cons (r : nat) (ancestors : list nat) (event : Event)
    (w w1 : World) (log1 : list Effect) :
  invokeListeners r event w = mkOutcome (Ok tt) w1 log1 ->
  dispatchEvent (r :: ancestors) event w =
  if existsb is_stopPropagation log1 || negb (bubbles event)
  then mkOutcome (Ok tt) w1 log1
  else mkOutcome (result (dispatchEvent ancestors event w1))
                 (world (dispatchEvent ancestors event w1))
                 (log1 ++ effects (dispatchEvent ancestors event w1)).
Proof.
  intros Hinvoke. cbn [dispatchEvent]. unfold mbind, M_bind, bind, listen.
  rewrite Hinvoke.
  destruct (existsb is_stopPropagation log1 || negb (bubbles event)).
  - unfold ret. by rewrite app_nil_r.
  - by destruct (dispatchEvent ancestors event w1).
Qed.

(** The outcome of the listeners of an element, by its parts. *)
Lemma invokeListeners_outcome (r : nat) (event : Event) (w : World) :
  invokeListeners r event w =
  mkOutcome (Ok tt) (world (invokeListeners r event w))
            (effects (invokeListeners r event w)).
Proof.
  rewrite (outcome_eta (invokeListeners r event w)) at 1.
  by rewrite invokeListeners_ok.
Qed.

(** An event that finds nothing to run on its way does nothing. *)
Lemma dispatchEvent_silent (path : list nat) (event : Event) (w : World) :
  (forall x, x ∈ path -> invokeListeners x event w = mkOutcome (Ok tt) w []) ->
  dispatchEvent path event w = mkOutcome (Ok tt) w [].
Proof.
  induction path as [|r ancestors IH]; intros Hpath; [reflexivity|].
  rewrite (dispatchEvent_cons r ancestors event w w [])
    by (apply Hpath, list_elem_of_here).
  rewrite IH by (intros x Hx; by apply Hpath, list_elem_of_further).
  cbn. by destruct (negb (bubbles event)).
Qed.

(** The listeners that one attach makes for a pass-through event type:
    exactly one, a pass-through listener of the editor. *)
Lemma listenersFrom_passthrough (n : nat) (e : LexicalEditor) (t : string) :
  (t, PASS_THROUGH_COMMAND) ∈ rootElementEvents ->
  exists m,
    List.filter (fun l => (l_eventName l =? t)%string)
                (listenersFrom n e rootElementEvents) =
    [mkListener t m PASS_THROUGH_COMMAND e].
Proof.
  unfold rootElementEvents. destruct CAN_USE_BEFORE_INPUT; cbn [app]; intros Hin;
    repeat (apply elem_of_cons in Hin as [Hin|Hin];
            [first [discriminate Hin
                   |injection Hin as ->; eexists; vm_compute; reflexivity]|]);
    by apply elem_of_nil in Hin.
Qed.

(** Every listener that an attach makes is a listener of the editor, and
    it is a pass-through listener when its event type is one. *)
Lemma listenersFrom_passthrough_only (n : nat) (e : LexicalEditor) (t : string)
    (l : Listener) :
  (t, PASS_THROUGH_COMMAND) ∈ rootElementEvents ->
  l ∈ listenersFrom n e rootElementEvents ->
  (l_eventName l =? t)%string = true ->
  l_onEvent l = PASS_THROUGH_COMMAND /\ l_editor l = e.
Proof.
  intros Ht Hl Hname.
  destruct (listenersFrom_passthrough n e t Ht) as [m Hm].
  assert (Hin : l ∈ List.filter (fun l => (l_eventName l =? t)%string)
                                (listenersFrom n e rootElementEvents)).
  { apply list_elem_of_In, filter_In. split; [by apply list_elem_of_In|exact Hname]. }
  rewrite Hm in Hin. apply list_elem_of_singleton in Hin. by subst l.
Qed.

End Dispatch.

(** ** Life cycle of a surface *)
Section Lifecycle.
Context {env : Environment} {keys : KeyPredicates} {engine : Engine}.

Lemma rootEditable_same (w w' : World) (e : LexicalEditor) :
  same_outside_elements w w' -> same_attributes w w' ->
  rootEditable w' e = rootEditable w e.
Proof.
  intros (_ & _ & Hed & _) Hattr. unfold rootEditable. rewrite Hed.
  destruct (_rootElement (editorObj w e)) as [r|]; [|reflexivity].
  by destruct (Hattr r) as (-> & _).
Qed.

Lemma listenersFrom_closure (n : nat) (e : LexicalEditor)
    (table : list (string * OnEvent)) (l : Listener) :
  l ∈ listenersFrom n e table -> (l_closure l < n + length table)%nat.
Proof.
  revert n. induction table as [|entry table IH]; intros n Hl; cbn in *.
  - by apply elem_of_nil in Hl.
  - apply elem_of_cons in Hl as [->|Hl]; cbn; [lia|].
    apply IH in Hl. lia.
Qed.

(** An attach completes in a world and makes no call. *)
Lemma addRootElementEvents_outcome (r : nat) (e : LexicalEditor) (w : World) :
  addRootElementEvents r e w =
  mkOutcome (Ok tt) (world (addRootElementEvents r e w)) [].
Proof.
  destruct (addRootElementEvents_spec r e w) as (Hr & He & _).
  rewrite (outcome_eta (addRootElementEvents r e w)) at 1. by rewrite Hr, He.
Qed.

(** The command stream of one event after a setup that makes no call. *)
Lemma commandStream_one (setup : M unit) (path : list nat) (event : Event)
    (w w1 : World) (log : list Effect) :
  setup w = mkOutcome (Ok tt) w1 [] ->
  dispatchEvent path event w1 = mkOutcome (Ok tt) w1 log ->
  commandStream setup path [event] w = commands log.
Proof.
  intros Hsetup Hdispatch. unfold commandStream. cbn [for_each].
  unfold mbind, M_bind, bind. rewrite Hsetup, Hdispatch. cbn.
  by rewrite app_nil_r.
Qed.

End Lifecycle.

Section Detach.
Context {env : Environment} {keys : KeyPredicates} {engine : Engine}.

(** Without an editor as back-reference the detach throws at once. *)
Lemma detach_without_editor_throws (rootElement : nat)
    (w : World) :
  __lexicalEditor (elementObj w rootElement) = Undefined \/
  __lexicalEditor (elementObj w rootElement) = Null ->
  world (removeRootElementEvents rootElement w) = w /\
  exists err, result (removeRootElementEvents rootElement w) = Throw err.
Proof.
  intros Hback.
  unfold removeRootElementEvents, cleanActiveNestedEditorsMap. unfold_M. cbn.
  destruct Hback as [-> | ->]; cbn; eauto.
Qed.

(** C10. [removeRootElementEvents] passes the back-reference of the
    element to [cleanActiveNestedEditorsMap], whatever it is.  After
    [addDocumentSelectionChangeEvent] the back-reference is the editor,
    and with an editor as back-reference the detach completes: the
    throwing branch is not reached.  With a back-reference that is
    [undefined] (never set) or [null] (cleared by an earlier detach), the
    cleanup throws on reading [_parentEditor] and the detach stops there:
    the world is as before, so every listener and every removal handle
    of the element is still in place. *)
Theorem removeRootElementEvents_needs_back_reference (rootElement : nat) :
  (forall w editor,
      let w1 := world (addDocumentSelectionChangeEvent rootElement editor w) in
      __lexicalEditor (elementObj w1 rootElement) = Val editor /\
      result (removeRootElementEvents rootElement w1) = Ok tt) /\
  (forall w editor,
      __lexicalEditor (elementObj w rootElement) = Val editor ->
      result (removeRootElementEvents rootElement w) = Ok tt /\
      activeNestedEditorsMap (world (removeRootElementEvents rootElement w)) =
        cleanedMap editor (activeNestedEditorsMap w)) /\
  (forall w,
      __lexicalEditor (elementObj w rootElement) = Undefined \/
      __lexicalEditor (elementObj w rootElement) = Null ->
      let o := removeRootElementEvents rootElement w in
      (exists err, result o = Throw err) /\
      world o = w /\
      listeners (elementObj (world o) rootElement) =
        listeners (elementObj w rootElement) /\
      _lexicalEventHandles (elementObj (world o) rootElement) =
        _lexicalEventHandles (elementObj w rootElement)).
Proof.
  assert (Hdefined : forall w editor,
             __lexicalEditor (elementObj w rootElement) = Val editor ->
             result (removeRootElementEvents rootElement w) = Ok tt /\
             activeNestedEditorsMap (world (removeRootElementEvents rootElement w)) =
               cleanedMap editor (activeNestedEditorsMap w)).
  { intros w editor Hback.
    destruct (removeRootElementEvents_spec rootElement editor w Hback)
      as (Hr & _ & _ & _ & _ & Hm & _). auto. }
  split; [|split; [exact Hdefined|]].
  - intros w editor w1.
    assert (Hback : __lexicalEditor (elementObj w1 rootElement) = Val editor).
    { subst w1. unfold addDocumentSelectionChangeEvent. unfold_M. cbn.
      destruct (negb _); cbn; by rewrite fn_lookup_insert. }
    split; [exact Hback|]. by destruct (Hdefined w1 editor Hback).
  - intros w Hback o. subst o.
    destruct (detach_without_editor_throws rootElement w Hback)
      as [-> Herr].
    auto.
Qed.

End Detach.

(** Detach of a root element that was never tracked, with a listener
    table attached: it throws and the twelve listeners stay; after
    [addDocumentSelectionChangeEvent] it completes. *)
Lemma removeRootElementEvents_needs_back_reference_witness :
  let attach := addRootElementEvents (env := Sample.chromium) 0 Sample.root in
  let w := world (attach Sample.world0) in
  let o := removeRootElementEvents 0 w in
  let w' := world (addDocumentSelectionChangeEvent 0 Sample.root w) in
  world o = w /\
  length (listeners (elementObj (world o) 0)) = 12%nat /\
  result (removeRootElementEvents 0 w') = Ok tt.
Proof.
  intros attach w o w'.
  destruct (removeRootElementEvents_needs_back_reference
              (engine := Sample.engine) 0%nat)
    as (Htracked & _ & Huntracked).
  destruct (Huntracked w) as (_ & Hsame & Hlisteners & _); [by left|].
  destruct (Htracked w Sample.root) as [_ Hok].
  split; [exact Hsame|]. split; [|exact Hok].
  subst o. rewrite Hlisteners. reflexivity.
Defined.

(** ** Arbitration of the document selection *)
Section Arbitration.
Context {env : Environment} {keys : KeyPredicates} {engine : Engine}.

Lemma bind_gets {A B : Type} (f : World -> A) (k : A -> M B) (w : World) :
  bind (gets f) k w = k (f w) w.
Proof. unfold bind, gets. cbn. by destruct (k (f w) w). Qed.

(** The deactivation update. *)
Lemma onSelectionChange_inactive (e : LexicalEditor) (w : World) :
  onSelectionChange e false w =
  mkOutcome (Ok tt)
    (set_editor e
       (mkEditorObj (nodes (editorObj w e)) None (_selection (editorObj w e))
                    (_compositionKey (editorObj w e)) (_rootElement (editorObj w e)))
       w)
    [Update e; SetSelection e None].
Proof. reflexivity. Qed.

(** The activation update. *)
Lemma onSelectionChange_active (e : LexicalEditor) (w : World) :
  let o := onSelectionChange e true w in
  result o = Ok tt /\
  effects o = [Update e; ExecCommand e "selectionChange" NoPayload] /\
  activeNestedEditorsMap (world o) = activeNestedEditorsMap w /\
  selection (editorObj (world o) e) =
    match selection (editorObj w e) with
    | Some sel =>
        Some (if isCollapsed sel
              then with_format (activationFormat (nodes (editorObj w e)) sel) sel
              else sel)
    | None => None
    end /\
  (forall e', e' <> e -> editorObj (world o) e' = editorObj w e').
Proof.
  unfold onSelectionChange, activationFormat. unfold_M. cbn.
  destruct (selection (editorObj w e)) as [sel|] eqn:Hsel; cbn; [|by rewrite Hsel].
  destruct (isCollapsed sel); cbn; [|by rewrite Hsel].
  destruct (type (anchor sel)); cbn; rewrite fn_lookup_insert; cbn;
    (repeat split; intros e' He'; by rewrite fn_lookup_insert_ne).
Qed.

(** The walk up from the anchor node runs the activation block for the
    editor at which it stops. *)
Lemma onDocumentSelectionChange_found (chain : list nat) (w : World)
    (next : LexicalEditor) :
  foundEditor w chain = Val next ->
  onDocumentSelectionChange chain w = activateEditor next w.
Proof.
  induction chain as [|node parents IH]; cbn [foundEditor onDocumentSelectionChange].
  - discriminate.
  - unfold mbind, M_bind. rewrite bind_gets.
    destruct (contentEditable (elementObj w node) =? "true")%string; [|exact IH].
    destruct (__lexicalEditor (elementObj w node)); [exact IH|discriminate|].
    by intros [= ->].
Qed.


End Arbitration.


(** ** Computations that do not write the map *)
Section KeepsMap.
Context {env : Environment} {keys : KeyPredicates} {engine : Engine}.

Lemma keeps_ret {A : Type} (a : A) : keeps_map (ret a).
Proof. by intros w. Qed.

Lemma keeps_gets {A : Type} (f : World -> A) : keeps_map (gets f).
Proof. by intros w. Qed.

Lemma keeps_call (e : Effect) : keeps_map (call e).
Proof. by intros w. Qed.

Lemma keeps_throw {A : Type} (err : string) : keeps_map (throw (A := A) err).
Proof. by intros w. Qed.

Lemma keeps_modify (f : World -> World) :
  (forall w, activeNestedEditorsMap (f w) = activeNestedEditorsMap w) ->
  keeps_map (modify f).
Proof. intros Hf w. apply Hf. Qed.

Lemma keeps_bind {A B : Type} (m : M A) (k : A -> M B) :
  keeps_map m -> (forall a, keeps_map (k a)) -> keeps_map (bind m k).
Proof.
  intros Hm Hk w. unfold bind. specialize (Hm w).
  destruct (m w) as [[a|err] w1 log1]; cbn in *; [|exact Hm].
  specialize (Hk a w1). destruct (k a w1) as [r w2 log2]. cbn in *. congruence.
Qed.

Lemma keeps_reportError (m : M unit) : keeps_map m -> keeps_map (reportError m).
Proof.
  intros Hm w. unfold reportError. specialize (Hm w). by destruct (m w).
Qed.

Lemma keeps_for_each {A : Type} (l : list A) (body : A -> M unit) :
  (forall x, keeps_map (body x)) -> keeps_map (for_each l body).
Proof.
  intros Hbody. induction l as [|x l IH]; cbn [for_each].
  - apply keeps_ret.
  - apply keeps_bind; [apply Hbody|intros _; exact IH].
Qed.

Lemma keeps_listen {A : Type} (m : M A) : keeps_map m -> keeps_map (listen m).
Proof.
  intros Hm w. unfold listen. specialize (Hm w). by destruct (m w) as [[a|err] ? ?].
Qed.

End KeepsMap.

(** Goes through a handler: binds, conditionals and matches; each write
    is a write outside the map. *)
Ltac keeps :=
  unfold update, setSelection, setCompositionKey, setTimeout;
  unfold write_selection, execCommand, updateSelectedTextFromDOM, flushMutations,
    isComposing, getNodes, getSelection, update_element, when;
  unfold mbind, M_bind;
  repeat (cbv beta zeta; first
    [ apply keeps_ret | apply keeps_gets | apply keeps_call | apply keeps_throw
    | apply keeps_modify; intro; reflexivity
    | apply keeps_reportError
    | apply keeps_bind; [|intro]
    | match goal with
      | |- keeps_map (if ?c then _ else _) => destruct c
      | |- keeps_map (match ?x with _ => _ end) => destruct x
      end ]).

Section Handlers.
Context {env : Environment} {keys : KeyPredicates} {engine : Engine}.

Lemma keeps_onSelectionChange (e : LexicalEditor) (b : bool) :
  keeps_map (onSelectionChange e b).
Proof. unfold onSelectionChange. keeps. Qed.

Lemma keeps_onClick (event : Event) (e : LexicalEditor) :
  keeps_map (onClick event e).
Proof. unfold onClick. keeps. Qed.

Lemma keeps_onBeforeInput (event : Event) (e : LexicalEditor) :
  keeps_map (onBeforeInput event e).
Proof. unfold onBeforeInput, beforeInputSwitch, applyTargetRange. keeps. Qed.

Lemma keeps_onInput (event : Event) (e : LexicalEditor) :
  keeps_map (onInput event e).
Proof. unfold onInput. keeps. Qed.

Lemma keeps_onCompositionStart (event : Event) (e : LexicalEditor) :
  keeps_map (onCompositionStart event e).
Proof. unfold onCompositionStart. keeps. Qed.

Lemma keeps_onCompositionEndInternal (event : Event) (e : LexicalEditor) :
  keeps_map (onCompositionEndInternal event e).
Proof. unfold onCompositionEndInternal. keeps. Qed.

Lemma keeps_onCompositionEnd (event : Event) (e : LexicalEditor) :
  keeps_map (onCompositionEnd event e).
Proof.
  unfold onCompositionEnd. destruct IS_FIREFOX.
  - keeps.
  - apply keeps_onCompositionEndInternal.
Qed.

Lemma keeps_onKeyDown (event : Event) (e : LexicalEditor) :
  keeps_map (onKeyDown event e).
Proof. unfold onKeyDown, updateAndroidSoftKeyFlagIfAny. keeps. Qed.

Lemma keeps_invokeListeners (r : nat) (event : Event) :
  keeps_map (invokeListeners r event).
Proof.
  unfold invokeListeners. unfold mbind, M_bind.
  apply keeps_bind; [apply keeps_gets|intros ls].
  apply keeps_for_each. intros l. apply keeps_reportError.
  unfold eventHandler, isRootEditable. unfold mbind, M_bind.
  apply keeps_bind; [apply keeps_gets|intros editable].
  unfold when. destruct editable; [|apply keeps_ret].
  destruct (l_onEvent l) as [f|]; [|apply keeps_call].
  destruct f; cbn [callHandler];
    auto using keeps_onKeyDown, keeps_onCompositionStart, keeps_onCompositionEnd,
      keeps_onInput, keeps_onClick, keeps_onBeforeInput.
Qed.

Lemma keeps_dispatchEvent (path : list nat) (event : Event) :
  keeps_map (dispatchEvent path event).
Proof.
  induction path as [|r ancestors IH]; cbn [dispatchEvent].
  - apply keeps_ret.
  - unfold mbind, M_bind.
    apply keeps_bind; [apply keeps_listen, keeps_invokeListeners|intros calls].
    destruct (_ || _); [apply keeps_ret|exact IH].
Qed.

Lemma keeps_runTimers : keeps_map runTimers.
Proof.
  unfold runTimers. unfold mbind, M_bind.
  apply keeps_bind; [apply keeps_gets|intros tasks].
  apply keeps_bind; [by apply keeps_modify|intros _].
  apply keeps_for_each. intros [event e]. apply keeps_reportError.
  apply keeps_onCompositionEndInternal.
Qed.

Lemma keeps_addRootElementEvents (r : nat) (e : LexicalEditor) :
  keeps_map (addRootElementEvents r e).
Proof.
  intros w. by destruct (addRootElementEvents_spec r e w)
    as (_ & _ & _ & _ & _ & _ & (_ & Hm & _) & _).
Qed.

Lemma keeps_addDocumentSelectionChangeEvent (r : nat) (e : LexicalEditor) :
  keeps_map (addDocumentSelectionChangeEvent r e).
Proof. unfold addDocumentSelectionChangeEvent. keeps. Qed.

End Handlers.

(** ** The invariant of the map of active nested editors *)
Section MapInvariant.
Context {env : Environment} {keys : KeyPredicates} {engine : Engine}.

Lemma onSelectionChange_ok (e : LexicalEditor) (b : bool) (w : World) :
  result (onSelectionChange e b w) = Ok tt.
Proof.
  destruct b.
  - by destruct (onSelectionChange_active e w) as (? & _).
  - by rewrite onSelectionChange_inactive.
Qed.

(** An editor that is not its own root has a parent. *)
Lemma not_root_has_parent (e : LexicalEditor) :
  e <> rootEditorOf e -> _parentEditor e <> None.
Proof.
  destruct e as [u k [p|]]; cbn; [discriminate|]. intros He _. by apply He.
Qed.

(** An editor without parent is its own root. *)
Lemma root_is_own_root (e : LexicalEditor) :
  _parentEditor e = None -> rootEditorOf e = e.
Proof. destruct e as [u k [p|]]; cbn; [discriminate|reflexivity]. Qed.

(** What the activation block writes to the map. *)
Lemma activateEditor_map (next : LexicalEditor) (w : World) :
  let R := rootEditorOf next in
  let m := activeNestedEditorsMap w in
  activeNestedEditorsMap (world (activateEditor next w)) =
    if bool_decide (next <> R) then <[_key R := next]> m
    else if bool_decide (m !! _key R <> None) then delete (_key R) m
    else m.
Proof.
  intros R m. unfold activateEditor. fold (rootEditorOf next). fold R.
  unfold mbind, M_bind. rewrite bind_gets. fold m.
  set (prev := default R (m !! _key R)).
  unfold bind.
  assert (Hfirst : result (when (bool_decide (prev <> next))
                                (onSelectionChange prev false) w) = Ok tt /\
                   activeNestedEditorsMap
                     (world (when (bool_decide (prev <> next))
                                  (onSelectionChange prev false) w)) = m).
  { unfold when. destruct (bool_decide (prev <> next)); [|by split].
    split; [apply onSelectionChange_ok|apply keeps_onSelectionChange]. }
  destruct (when _ _ w) as [r1 w1 log1]. cbn in Hfirst. destruct Hfirst as [-> Hm1].
  pose proof (onSelectionChange_ok next true w1) as Hr2.
  pose proof (keeps_onSelectionChange next true w1) as Hm2.
  destruct (onSelectionChange next true w1) as [r2 w2 log2]. cbn in Hr2, Hm2.
  subst r2. rewrite Hm1 in Hm2.
  destruct (bool_decide (next <> R)); [by cbn; rewrite Hm2|].
  destruct (bool_decide (m !! _key R <> None)); cbn; by rewrite ?Hm2.
Qed.

Lemma nested_under_root_empty : nested_under_root ∅.
Proof. intros k v Hk. by rewrite lookup_empty in Hk. Qed.

Lemma nested_under_root_delete (k : string) (m : gmap string LexicalEditor) :
  nested_under_root m -> nested_under_root (delete k m).
Proof.
  intros Hm k' v Hk'. apply lookup_delete_Some in Hk' as [_ Hk']. by apply Hm.
Qed.

Lemma nested_under_root_insert (next : LexicalEditor)
    (m : gmap string LexicalEditor) :
  next <> rootEditorOf next ->
  nested_under_root m ->
  nested_under_root (<[_key (rootEditorOf next) := next]> m).
Proof.
  intros Hnext Hm k v Hk. apply lookup_insert_Some in Hk as [[<- <-]|[_ Hk]].
  - split; [by apply not_root_has_parent|reflexivity].
  - by apply Hm.
Qed.

Lemma nested_under_root_cleaned (e : LexicalEditor)
    (m : gmap string LexicalEditor) :
  nested_under_root m -> nested_under_root (cleanedMap e m).
Proof.
  intros Hm. unfold cleanedMap. destruct (_parentEditor e).
  - destruct (bool_decide _); [by apply nested_under_root_delete|exact Hm].
  - by apply nested_under_root_delete.
Qed.

(** A selection change keeps the invariant. *)
Lemma onDocumentSelectionChange_nested (chain : list nat) (w : World) :
  nested_under_root (activeNestedEditorsMap w) ->
  nested_under_root
    (activeNestedEditorsMap (world (onDocumentSelectionChange chain w))).
Proof.
  intros Hm. induction chain as [|node parents IH]; cbn [onDocumentSelectionChange].
  - exact Hm.
  - unfold mbind, M_bind. rewrite bind_gets.
    destruct (contentEditable (elementObj w node) =? "true")%string; [|exact IH].
    destruct (__lexicalEditor (elementObj w node)) as [| |next];
      [exact IH|exact Hm|].
    rewrite activateEditor_map.
    destruct (bool_decide (next <> rootEditorOf next)) eqn:Hnext.
    + apply bool_decide_eq_true in Hnext. by apply nested_under_root_insert.
    + clear Hnext.
      destruct (bool_decide _); [by apply nested_under_root_delete|exact Hm].
Qed.

(** A detach keeps the invariant. *)
Lemma removeRootElementEvents_nested (r : nat) (w : World) :
  nested_under_root (activeNestedEditorsMap w) ->
  nested_under_root
    (activeNestedEditorsMap (world (removeRootElementEvents r w))).
Proof.
  intros Hm.
  destruct (__lexicalEditor (elementObj w r)) as [| |e] eqn:Hback.
  - destruct (detach_without_editor_throws r w) as [-> _];
      auto.
  - destruct (detach_without_editor_throws r w) as [-> _];
      auto.
  - destruct (removeRootElementEvents_spec r e w Hback)
      as (_ & _ & _ & _ & _ & -> & _).
    by apply nested_under_root_cleaned.
Qed.

(** Every step keeps the invariant. *)
Lemma step_nested (s : Step) (w : World) :
  nested_under_root (activeNestedEditorsMap w) ->
  nested_under_root (activeNestedEditorsMap (world (step s w))).
Proof.
  intros Hm. destruct s as [chain|r e|r e|r|r event|]; cbn [step].
  - by apply onDocumentSelectionChange_nested.
  - by rewrite keeps_addRootElementEvents.
  - by rewrite keeps_addDocumentSelectionChangeEvent.
  - by apply removeRootElementEvents_nested.
  - by rewrite keeps_dispatchEvent.
  - by rewrite keeps_runTimers.
Qed.

Lemma run_cons (s : Step) (steps : list Step) (w : World) :
  world (run (s :: steps) w) = world (run steps (world (step s w))).
Proof.
  unfold run. cbn [for_each]. unfold bind, reportError.
  destruct (step s w) as [r w1 log1]. cbn.
  by destruct (for_each steps _ w1).
Qed.

(** The invariant holds after every sequence of steps that starts with
    an empty map. *)
Lemma run_nested (steps : list Step) (w : World) :
  nested_under_root (activeNestedEditorsMap w) ->
  nested_under_root (activeNestedEditorsMap (world (run steps w))).
Proof.
  revert w. induction steps as [|s steps IH]; intros w Hm.
  - exact Hm.
  - rewrite run_cons. apply IH. by apply step_nested.
Qed.

(** C3. After every sequence of selection changes, attaches, detaches,
    events and timer turns that starts with the empty map of the module,
    the map never sends the key of a root editor to that root editor.
    When a selection change finds a root editor, the entry for its key
    is gone afterwards; and after the detach of a root element, no entry
    of the map holds the editor that was its back-reference, nor, when
    that editor is a root, is there an entry for its key. *)
Theorem activeNestedEditorsMap_never_maps_root_to_itself
    (w0 : World) (steps : list Step) :
  activeNestedEditorsMap w0 = ∅ ->
  let w := world (run steps w0) in
  (forall R,
      _parentEditor R = None ->
      activeNestedEditorsMap w !! _key R <> Some R) /\
  (forall chain R,
      _parentEditor R = None ->
      foundEditor w chain = Val R ->
      activeNestedEditorsMap (world (onDocumentSelectionChange chain w)) !! _key R
        = None) /\
  (forall rootElement E,
      __lexicalEditor (elementObj w rootElement) = Val E ->
      let w' := world (removeRootElementEvents rootElement w) in
      (forall k, activeNestedEditorsMap w' !! k <> Some E) /\
      (_parentEditor E = None -> activeNestedEditorsMap w' !! _key E = None)).
Proof.
  intros Hempty w.
  assert (Hinv : nested_under_root (activeNestedEditorsMap w)).
  { apply run_nested. rewrite Hempty. apply nested_under_root_empty. }
  split; [|split].
  - intros R Hroot Hself. apply Hinv in Hself as [Hparent _]. contradiction.
  - intros chain R Hroot Hfound.
    rewrite (onDocumentSelectionChange_found chain w R Hfound), activateEditor_map.
    rewrite (root_is_own_root R Hroot).
    rewrite bool_decide_eq_false_2 by (intros Hne; by apply Hne).
    destruct (bool_decide _) eqn:Hentry.
    + apply lookup_delete_eq.
    + apply bool_decide_eq_false in Hentry.
      destruct (activeNestedEditorsMap w !! _key R); [|reflexivity].
      exfalso. by apply Hentry.
  - intros r E Hback w'. subst w'.
    destruct (removeRootElementEvents_spec r E w Hback)
      as (_ & _ & _ & _ & _ & -> & _).
    unfold cleanedMap. split;
      [|intros ->; apply lookup_delete_eq].
    intros k Hk.
    destruct (_parentEditor E) as [p|] eqn:Hparent.
    + destruct (bool_decide _) eqn:Hentry.
      * apply lookup_delete_Some in Hk as [Hne Hk].
        apply Hinv in Hk as [_ ->]. by apply Hne.
      * apply bool_decide_eq_false in Hentry.
        pose proof Hk as Hk'. apply Hinv in Hk' as [_ ->]. by apply Hentry.
    + apply lookup_delete_Some in Hk as [_ Hk].
      apply Hinv in Hk as [Hk _]. by apply Hk.
Qed.

End MapInvariant.

(** The root and a nested editor are tracked and the selection enters
    the nested editor: the map sends the key of the root to the nested
    editor, never to the root; when the selection returns to the root
    the entry goes, and the detach of the nested editor removes it. *)
Lemma activeNestedEditorsMap_never_maps_root_to_itself_witness :
  let steps := [ Track 0 Sample.root; Track 1 Sample.nestedA;
                 SelectionChange [9; 1]%nat ] in
  let w := world (run (env := Sample.chromium) (keys := Sample.keys)
                      steps Sample.world0) in
  activeNestedEditorsMap w !! "root" = Some Sample.nestedA /\
  activeNestedEditorsMap w !! "root" <> Some Sample.root /\
  activeNestedEditorsMap (world (onDocumentSelectionChange [0%nat] w)) !! "root"
    = None /\
  activeNestedEditorsMap (world (removeRootElementEvents 1 w)) !! "root"
    <> Some Sample.nestedA.
Proof.
  intros steps w.
  destruct (activeNestedEditorsMap_never_maps_root_to_itself
              (env := Sample.chromium) (keys := Sample.keys)
              Sample.world0 steps eq_refl) as (Hnever & Hroot & Hdetach).
  fold w in Hnever, Hroot, Hdetach.
  split; [vm_compute; reflexivity|]. split; [exact (Hnever Sample.root eq_refl)|].
  split.
  - apply (Hroot [0%nat] Sample.root eq_refl). vm_compute. reflexivity.
  - destruct (Hdetach 1%nat Sample.nestedA) as [Hgone _].
    + vm_compute. reflexivity.
    + apply Hgone.
Defined.

(** * Further properties of the handlers *)

(** ** Key down and composition start *)
Section SoftKey.
Context {env : Environment} {keys : KeyPredicates} {engine : Engine}.

Lemma onKeyDown_world (w : World) (event : Event) (editor : LexicalEditor) :
  result (onKeyDown event editor w) = Ok tt /\
  world (onKeyDown event editor w) = set_lastKey (softKey event) w.
Proof.
  unfold onKeyDown, updateAndroidSoftKeyFlagIfAny, softKey. unfold_M. cbn.
  destruct (bool_decide _); cbn; [by split|].
  repeat match goal with
         | |- context [if ?c then _ else _] => destruct c; cbn; try (by split)
         end.
Qed.

(** X1. [onKeyDown] writes nothing but the soft-key flag, which it sets
    on every key down, composing or not, to "the key is ['Unidentified']
    and the key code is 229"; it always completes, and while the editor
    composes it makes no call at all. *)
Theorem onKeyDown_only_writes_flag
    (w : World) (event : Event) (editor : LexicalEditor) :
  let o := onKeyDown event editor w in
  result o = Ok tt /\
  world o = set_lastKey (softKey event) w /\
  (_compositionKey (editorObj w editor) <> None -> effects o = []).
Proof.
  intros o. destruct (onKeyDown_world w event editor) as [Hr Hw].
  split; [exact Hr|]. split; [exact Hw|].
  intros Hcomposing. subst o.
  unfold onKeyDown, updateAndroidSoftKeyFlagIfAny. unfold_M. cbn.
  by rewrite bool_decide_eq_true_2.
Qed.

(** X2. The soft-key flag is shared by all editors: after a key down on
    any editor, a composition start on an idle editor with a collapsed
    selection at a text point records the composition key and inserts
    the space exactly when that key down was not a soft-keyboard
    placeholder. *)
Theorem compositionStart_after_keyDown
    (w : World) (keyDown start : Event) (typed editor : LexicalEditor)
    (sel : RangeSelection) :
  selection (editorObj w editor) = Some sel ->
  isCollapsed sel = true ->
  type (anchor sel) = text ->
  _compositionKey (editorObj w editor) = None ->
  let o := (onKeyDown keyDown typed ;; onCompositionStart start editor) w in
  result o = Ok tt /\
  _compositionKey (editorObj (world o) editor) = Some (key (anchor sel)) /\
  effects o =
    effects (onKeyDown keyDown typed w) ++
    [Update editor; SetCompositionKey editor (Some (key (anchor sel)))] ++
    (if softKey keyDown then []
     else [ExecCommand editor "insertText" (PString " ")]).
Proof.
  intros Hsel Hcollapsed Htext Hidle o. subst o.
  destruct (onKeyDown_world w keyDown typed) as [Hr Hw].
  unfold mbind, M_bind, bind.
  destruct (onKeyDown keyDown typed w) as [r w1 log1]. cbn in Hr, Hw. subst r w1.
  unfold onCompositionStart. unfold_M. cbn.
  rewrite Hsel, Hidle. cbn. rewrite Hcollapsed, Htext. cbn.
  rewrite (bool_decide_eq_false_2 (text = element)) by discriminate.
  destruct (softKey keyDown); cbn; rewrite fn_lookup_insert; auto.
Qed.

(** X3. A composition start on an editor that already composes, or that
    has no selection, changes nothing: the composition key is not
    overwritten and no command is issued. *)
Theorem onCompositionStart_ignored
    (w : World) (event : Event) (editor : LexicalEditor) :
  selection (editorObj w editor) = None \/
  _compositionKey (editorObj w editor) <> None ->
  onCompositionStart event editor w = mkOutcome (Ok tt) w [Update editor].
Proof.
  intros Hignored. unfold onCompositionStart. unfold_M. cbn.
  destruct (selection (editorObj w editor)) as [sel|]; [|reflexivity].
  destruct Hignored as [Hnone|Hcomposing]; [discriminate|].
  by rewrite bool_decide_eq_true_2.
Qed.

End SoftKey.

(** The placeholder key of a soft keyboard on the root editor, then a
    composition start on a nested editor: the key is recorded and no
    space is inserted; after the letter [a] the space is inserted. *)
Lemma compositionStart_after_keyDown_witness :
  let soft := Sample.keyEvent "Unidentified" 229 false in
  let letter := Sample.keyEvent "a" 65 false in
  let start := Sample.inputEvent "compositionstart" EmptyString None in
  let run keyDown :=
    effects ((onKeyDown (keys := Sample.keys) keyDown Sample.root ;;
              onCompositionStart start Sample.nestedA) Sample.world0) in
  run soft = [ Update Sample.nestedA;
               SetCompositionKey Sample.nestedA (Some "t") ] /\
  run letter = [ Update Sample.nestedA;
                 SetCompositionKey Sample.nestedA (Some "t");
                 ExecCommand Sample.nestedA "insertText" (PString " ") ].
Proof.
  intros soft letter start run. subst run. cbv beta. split.
  - destruct (compositionStart_after_keyDown
                (keys := Sample.keys) Sample.world0 soft start Sample.root
                Sample.nestedA (Sample.caretAt "t" 1 text)
                eq_refl eq_refl eq_refl eq_refl) as (_ & _ & Heff).
    rewrite Heff. reflexivity.
  - destruct (compositionStart_after_keyDown
                (keys := Sample.keys) Sample.world0 letter start Sample.root
                Sample.nestedA (Sample.caretAt "t" 1 text)
                eq_refl eq_refl eq_refl eq_refl) as (_ & _ & Heff).
    rewrite Heff. reflexivity.
Defined.

(** A second composition start while the first composition lasts. *)
Lemma onCompositionStart_ignored_witness :
  let start := Sample.inputEvent "compositionstart" EmptyString None in
  let w := world (onCompositionStart start Sample.root Sample.world0) in
  _compositionKey (editorObj w Sample.root) = Some "t" /\
  onCompositionStart start Sample.root w = mkOutcome (Ok tt) w [Update Sample.root].
Proof.
  intros start w. split; [reflexivity|].
  apply onCompositionStart_ignored. right. discriminate.
Defined.

(** ** More on pre-commit input events *)
Section BeforeInputCases.
Context {env : Environment} {keys : KeyPredicates} {engine : Engine}.

(** Case analysis on every condition and match of a handler that has
    been applied to a world. *)
Ltac all_cases :=
  repeat match goal with
         | |- context [if ?c then _ else _] => destruct c; cbn
         | |- context [match selection ?o with _ => _ end] =>
             destruct (selection o); cbn
         | |- context [match getTargetRanges ?e with _ => _ end] =>
             destruct (getTargetRanges e) as [[|? ?]|]; cbn
         | |- context [match data ?e with _ => _ end] => destruct (data e); cbn
         | |- context [match dataTransfer ?e with _ => _ end] =>
             destruct (dataTransfer e); cbn
         end.


(** X4. Whatever [onBeforeInput] hands to the engine (a command or a raw
    text insert), it has called [preventDefault] before: the platform
    never carries out an input that the handler takes over.  It hands
    over at most one edit per event. *)
Theorem onBeforeInput_prevents_default_before_dispatch
    (w : World) (event : Event) (editor : LexicalEditor) :
  let log := effects (onBeforeInput event editor w) in
  existsb is_dispatch log = true ->
  occurs_before is_preventDefault is_dispatch log = true /\
  In (PreventDefault event) log /\
  length (List.filter is_dispatch log) = 1%nat.
Proof.
  unfold onBeforeInput, beforeInputSwitch, applyTargetRange. unfold_M. cbn.
  all_cases; intros Hdispatch; try discriminate Hdispatch;
    (split; [reflexivity|split; [cbn; tauto|reflexivity]]).
Qed.

(** X5. The two composition input types are ignored before anything
    else: no update is started.  Without a selection, no input type has
    [preventDefault] called or anything handed to the engine, and the
    world is left as it is. *)
Theorem onBeforeInput_ignored (w : World) (event : Event) (editor : LexicalEditor) :
  (inputType event = "deleteCompositionText" \/
   inputType event = "insertCompositionText" ->
   onBeforeInput event editor w = mkOutcome (Ok tt) w []) /\
  (selection (editorObj w editor) = None ->
   let o := onBeforeInput event editor w in
   result o = Ok tt /\
   world o = w /\
   existsb is_preventDefault (effects o) = false /\
   existsb is_dispatch (effects o) = false).
Proof.
  split.
  - intros [Htype|Htype]; unfold onBeforeInput; by rewrite Htype.
  - intros Hnone. unfold onBeforeInput. unfold_M.
    destruct (_ || _); cbn; [auto|]. rewrite Hnone. auto.
Qed.

(** X6. [deleteContentBackward] with a selection: the composition key is
    cleared, then [preventDefault] is called, then [deleteCharacter]
    with payload [true] is dispatched.  The target ranges of the event
    are not applied: the selection stays as it was. *)
Theorem onBeforeInput_deleteContentBackward
    (w : World) (event : Event) (editor : LexicalEditor) (sel : RangeSelection) :
  inputType event = "deleteContentBackward" ->
  selection (editorObj w editor) = Some sel ->
  let o := onBeforeInput event editor w in
  result o = Ok tt /\
  effects o = [ Update editor; SetCompositionKey editor None;
                PreventDefault event;
                ExecCommand editor "deleteCharacter" (PBool true) ] /\
  _compositionKey (editorObj (world o) editor) = None /\
  selection (editorObj (world o) editor) = Some sel.
Proof.
  intros Htype Hsel. unfold onBeforeInput. rewrite Htype. unfold_M. cbn.
  rewrite Hsel. cbn. rewrite fn_lookup_insert. cbn. auto.
Qed.

(** X7. An input type that [onBeforeInput] does not name, with a
    selection: after the target-range step [preventDefault] is still
    called, and no command is issued; the default of the platform is
    suppressed although nothing replaces it. *)
Theorem onBeforeInput_unrecognized
    (w : World) (event : Event) (editor : LexicalEditor) (sel : RangeSelection) :
  inputType event ∉ inputTypes ->
  selection (editorObj w editor) = Some sel ->
  let o := onBeforeInput event editor w in
  result o = Ok tt /\
  effects o =
    Update editor :: targetRangeCalls (nodes (editorObj w editor)) sel event editor ++
    [PreventDefault event] /\
  commands (effects o) = [].
Proof.
  intros Hunknown Hsel.
  assert (Hneq : forall s, s ∈ inputTypes -> (inputType event =? s)%string = false).
  { intros s Hs. apply String.eqb_neq. intros Heq. apply Hunknown. by rewrite Heq. }
  unfold onBeforeInput, beforeInputSwitch, applyTargetRange, targetRangeCalls.
  rewrite !Hneq
    by (unfold inputTypes;
        repeat first [apply list_elem_of_here | apply list_elem_of_further]).
  unfold_M. cbn. rewrite Hsel. cbn.
  destruct (negb (dirty sel) && isCollapsed sel &&
            negb (isRootNode (getNode (nodes (editorObj w editor)) (anchor sel))));
    [destruct (getTargetRanges event) as [[|r rs]|]|]; cbn; auto.
Qed.

End BeforeInputCases.

(** A paste from the clipboard is prevented before it is dispatched. *)
Lemma onBeforeInput_prevents_default_before_dispatch_witness :
  let event := Sample.inputEvent "beforeinput" "insertFromPaste" None in
  let log := effects (onBeforeInput event Sample.root Sample.world0) in
  log = [ Update Sample.root; PreventDefault event;
          ExecCommand Sample.root "paste" (PEvent event) ] /\
  occurs_before is_preventDefault is_dispatch log = true.
Proof.
  intros event log. split; [reflexivity|].
  by destruct (onBeforeInput_prevents_default_before_dispatch
                 Sample.world0 event Sample.root eq_refl) as (Hbefore & _).
Defined.

(** A composition input type is ignored; without a selection a paste is
    neither prevented nor dispatched. *)
Lemma onBeforeInput_ignored_witness :
  let composition := Sample.inputEvent "beforeinput" "insertCompositionText" (Some "x") in
  let paste := Sample.inputEvent "beforeinput" "insertFromPaste" None in
  let w := Sample.withDocument Sample.root Sample.paragraph None None Sample.world0 in
  onBeforeInput composition Sample.root Sample.world0 =
    mkOutcome (Ok tt) Sample.world0 [] /\
  effects (onBeforeInput paste Sample.root w) = [Update Sample.root].
Proof.
  intros composition paste w.
  destruct (onBeforeInput_ignored Sample.world0 composition Sample.root)
    as [Hcomposition _].
  destruct (onBeforeInput_ignored w paste Sample.root) as [_ Hnone].
  split; [apply Hcomposition; by right|].
  destruct (Hnone eq_refl) as (_ & _ & _ & _). reflexivity.
Defined.

(** A backward delete of a soft keyboard with a target range: the range
    is not applied. *)
Lemma onBeforeInput_deleteContentBackward_witness :
  let event := mkEvent "beforeinput" EmptyString 0 false false false false
                       "deleteContentBackward" None None
                       (Some [mkStaticRange 9 0 9 1]) in
  let o := onBeforeInput event Sample.root Sample.world0 in
  effects o = [ Update Sample.root; SetCompositionKey Sample.root None;
                PreventDefault event;
                ExecCommand Sample.root "deleteCharacter" (PBool true) ] /\
  selection (editorObj (world o) Sample.root) = Some (Sample.caretAt "t" 1 text).
Proof.
  intros event o.
  destruct (onBeforeInput_deleteContentBackward
              Sample.world0 event Sample.root (Sample.caretAt "t" 1 text)
              eq_refl eq_refl) as (_ & Heff & _ & Hsel).
  split; assumption.
Defined.

(** The input type [insertOrderedList] is not named by the handler: the
    event is prevented and nothing is dispatched. *)
Lemma onBeforeInput_unrecognized_witness :
  let event := Sample.inputEvent "beforeinput" "insertOrderedList" None in
  effects (onBeforeInput event Sample.root Sample.world0) =
    [Update Sample.root; PreventDefault event].
Proof.
  intros event.
  destruct (onBeforeInput_unrecognized
              Sample.world0 event Sample.root (Sample.caretAt "t" 1 text))
    as (_ & Heff & _).
  - intros Hin. unfold inputTypes in Hin.
    repeat (apply elem_of_cons in Hin as [Hin|Hin]; [discriminate Hin|]).
    by apply elem_of_nil in Hin.
  - reflexivity.
  - rewrite Heff. reflexivity.
Defined.

(** ** Properties kept by every handler *)
Section Preserved.
Context {env : Environment} {keys : KeyPredicates} {engine : Engine}.
Context (P : World -> Prop).

Lemma preserves_ret {A : Type} (a : A) : preserves P (ret a).
Proof. by intros w. Qed.

Lemma preserves_gets {A : Type} (f : World -> A) : preserves P (gets f).
Proof. by intros w. Qed.

Lemma preserves_call (e : Effect) : preserves P (call e).
Proof. by intros w. Qed.

Lemma preserves_throw {A : Type} (err : string) : preserves P (throw (A := A) err).
Proof. by intros w. Qed.

Lemma preserves_modify (f : World -> World) :
  (forall w, P w -> P (f w)) -> preserves P (modify f).
Proof. intros Hf w. apply Hf. Qed.

Lemma preserves_bind {A B : Type} (m : M A) (k : A -> M B) :
  preserves P m -> (forall a, preserves P (k a)) -> preserves P (bind m k).
Proof.
  intros Hm Hk w Hw. unfold bind. specialize (Hm w Hw).
  destruct (m w) as [[a|err] w1 log1]; cbn in *; [|exact Hm].
  specialize (Hk a w1 Hm). by destruct (k a w1).
Qed.

Lemma preserves_reportError (m : M unit) :
  preserves P m -> preserves P (reportError m).
Proof.
  intros Hm w Hw. unfold reportError. specialize (Hm w Hw). by destruct (m w).
Qed.

Lemma preserves_for_each {A : Type} (l : list A) (body : A -> M unit) :
  (forall x, preserves P (body x)) -> preserves P (for_each l body).
Proof.
  intros Hbody. induction l as [|x l IH]; cbn [for_each].
  - apply preserves_ret.
  - apply preserves_bind; [apply Hbody|intros _; exact IH].
Qed.

Lemma preserves_listen {A : Type} (m : M A) :
  preserves P m -> preserves P (listen m).
Proof.
  intros Hm w Hw. unfold listen. specialize (Hm w Hw).
  by destruct (m w) as [[a|err] ? ?].
Qed.

End Preserved.

(** Goes through a handler like [keeps]; [write] proves that a write
    keeps the property. *)
Ltac preserved write :=
  unfold update, setSelection, setCompositionKey, setTimeout;
  unfold write_selection, execCommand, updateSelectedTextFromDOM, flushMutations,
    isComposing, getNodes, getSelection, update_element, when;
  unfold mbind, M_bind;
  repeat (cbv beta zeta; first
    [ apply preserves_ret | apply preserves_gets | apply preserves_call
    | apply preserves_throw
    | apply preserves_modify; write
    | apply preserves_reportError
    | apply preserves_for_each; intro
    | apply preserves_bind; [|intro]
    | match goal with
      | |- preserves _ (if ?c then _ else _) => destruct c
      | |- preserves _ (match ?x with _ => _ end) => destruct x
      end ]).

(** A write of a handler keeps the surfaces. *)
Ltac keeps_registration :=
  let w0 := fresh "w" in
  let e0 := fresh "e" in
  intros w0 (? & ? & ? & ? & ?); cbn;
  repeat split; try assumption;
  intros e0; cbn;
  match goal with
  | |- context [<[?a := _]> _ e0] =>
      destruct (decide (a = e0)) as [->|?];
      [rewrite fn_lookup_insert | rewrite fn_lookup_insert_ne by assumption];
      cbn; auto
  | _ => auto
  end.

(** A write of a handler other than [onCompositionStart] keeps an idle
    editor idle. *)
Ltac keeps_idle :=
  let w0 := fresh "w" in
  let H := fresh "H" in
  unfold idle; intros w0 H; cbn;
  match goal with
  | |- context [<[?a := _]> _ ?b] =>
      destruct (decide (a = b)) as [->|?];
      [rewrite fn_lookup_insert | rewrite fn_lookup_insert_ne by assumption];
      cbn; first [exact H | reflexivity | congruence]
  | _ => exact H
  end.

(** ** What an event can and cannot do *)
Section EventFrame.
Context {env : Environment} {keys : KeyPredicates} {engine : Engine}.


(** Listeners of editors whose root element is not editable do nothing. *)
Lemma not_editable_listeners (event : Event) (ls : list Listener) (w : World) :
  (forall l, l ∈ ls -> rootEditable w (l_editor l) = false) ->
  for_each ls (fun l => reportError (eventHandler l event)) w =
  mkOutcome (Ok tt) w [].
Proof.
  induction ls as [|l ls IH]; intros Hls; cbn [for_each].
  - reflexivity.
  - assert (Hl : reportError (eventHandler l event) w = mkOutcome (Ok tt) w []).
    { unfold reportError, eventHandler, isRootEditable. unfold_M. cbn.
      by rewrite (Hls l) by apply list_elem_of_here. }
    unfold bind at 1. rewrite Hl, IH; [reflexivity|].
    intros l' Hl'. apply Hls. by apply list_elem_of_further.
Qed.

Lemma same_registration_refl (w : World) : same_registration w w.
Proof. by repeat split. Qed.

Lemma callHandler_same_registration (w0 : World) (f : HandlerName)
    (event : Event) (e : LexicalEditor) :
  preserves (same_registration w0) (callHandler f event e).
Proof.
  destruct f; cbn [callHandler].
  - unfold onKeyDown, updateAndroidSoftKeyFlagIfAny. preserved keeps_registration.
  - unfold onCompositionStart. preserved keeps_registration.
  - unfold onCompositionEnd, onCompositionEndInternal. preserved keeps_registration.
  - unfold onInput. preserved keeps_registration.
  - unfold onClick. preserved keeps_registration.
  - unfold onBeforeInput, beforeInputSwitch, applyTargetRange.
    preserved keeps_registration.
Qed.

Lemma invokeListeners_preserves (P : World -> Prop) (r : nat) (event : Event) :
  (forall f e, preserves P (callHandler f event e)) ->
  preserves P (invokeListeners r event).
Proof.
  intros Hhandlers. unfold invokeListeners. unfold mbind, M_bind.
  apply preserves_bind; [apply preserves_gets|intros ls].
  apply preserves_for_each. intros l. apply preserves_reportError.
  unfold eventHandler, isRootEditable. unfold mbind, M_bind.
  apply preserves_bind; [apply preserves_gets|intros editable].
  unfold when. destruct editable; [|apply preserves_ret].
  destruct (l_onEvent l) as [f|]; [apply Hhandlers|apply preserves_call].
Qed.

Lemma dispatchEvent_preserves (P : World -> Prop) (path : list nat)
    (event : Event) :
  (forall f e, preserves P (callHandler f event e)) ->
  preserves P (dispatchEvent path event).
Proof.
  intros Hhandlers. induction path as [|r ancestors IH]; cbn [dispatchEvent].
  - apply preserves_ret.
  - unfold mbind, M_bind.
    apply preserves_bind;
      [by apply preserves_listen, invokeListeners_preserves|intros calls].
    destruct (_ || _); [apply preserves_ret|exact IH].
Qed.

Lemma runTimers_preserves (P : World -> Prop) :
  (forall w, P w -> P (set_timers [] w)) ->
  (forall event e, preserves P (onCompositionEndInternal event e)) ->
  preserves P runTimers.
Proof.
  intros Hclear Hend. unfold runTimers. unfold mbind, M_bind.
  apply preserves_bind; [apply preserves_gets|intros tasks].
  apply preserves_bind; [by apply preserves_modify|intros _].
  apply preserves_for_each. intros [event e]. apply preserves_reportError.
  apply Hend.
Qed.

(** The listeners of an element leave the surfaces as they are. *)
Lemma invokeListeners_same_registration (r : nat) (event : Event) (w : World) :
  same_registration w (world (invokeListeners r event w)).
Proof.
  apply (invokeListeners_preserves (same_registration w));
    [intros f e; apply callHandler_same_registration
    |apply same_registration_refl].
Qed.

(** An event whose propagation path has no listener above the target
    runs the listeners of the target and nothing else. *)
Lemma dispatchEvent_target_only (r : nat) (ancestors : list nat)
    (event : Event) (w : World) :
  (forall x, x ∈ ancestors -> listeners (elementObj w x) = []) ->
  dispatchEvent (r :: ancestors) event w = invokeListeners r event w.
Proof.
  intros Hnone.
  rewrite (dispatchEvent_cons _ _ _ _ _ _ (invokeListeners_outcome r event w)).
  destruct (invokeListeners_same_registration r event w) as (Hel & _).
  rewrite dispatchEvent_silent.
  - cbn. rewrite app_nil_r.
    destruct (_ || _); symmetry; apply invokeListeners_outcome.
  - intros x Hx. apply invokeListeners_no_listener. rewrite Hel. by apply Hnone.
Qed.

(** X8. The editable gate: when the listeners that the elements of the
    propagation path (the target and its ancestors) have for the type
    of the event all belong to editors whose root element is missing or
    is not [contentEditable = 'true'], the event does nothing at all: no
    handler runs, no command is sent, the world is as before. *)
Theorem dispatchEvent_not_editable (path : list nat) (event : Event) (w : World) :
  (forall x l, x ∈ path -> l ∈ listeners (elementObj w x) ->
     (l_eventName l =? event_type event)%string = true ->
     rootEditable w (l_editor l) = false) ->
  dispatchEvent path event w = mkOutcome (Ok tt) w [].
Proof.
  intros Hls. apply dispatchEvent_silent. intros x Hx.
  unfold invokeListeners. unfold mbind, M_bind. rewrite bind_gets.
  apply not_editable_listeners.
  intros l [Hin%list_elem_of_In Hname]%list_elem_of_In%filter_In.
  by apply (Hls x).
Qed.












(** X10. Events do not rewire the surfaces.  Whatever event the platform
    fires, on whatever element and along whatever propagation path, and
    whatever waits in the timer queue, the handlers leave every element
    as it is (listeners, removal handles, back-reference, editability),
    as well as the documents, the map of active nested editors and the
    root element of every editor: a handler never attaches, detaches or
    re-targets anything, so an editor that was editable before an event
    is editable after it. *)
Theorem events_keep_registration (path : list nat) (event : Event) (w : World) :
  let w1 := world (dispatchEvent path event w) in
  let w2 := world (runTimers w) in
  same_registration w w1 /\ same_registration w w2 /\
  (forall e, rootEditable w1 e = rootEditable w e) /\
  (forall e, rootEditable w2 e = rootEditable w e).
Proof.
  intros w1 w2.
  assert (H1 : same_registration w w1).
  { apply (dispatchEvent_preserves (same_registration w));
      [intros f e; apply callHandler_same_registration
      |apply same_registration_refl]. }
  assert (H2 : same_registration w w2).
  { apply (runTimers_preserves (same_registration w)).
    - keeps_registration.
    - intros ev e. unfold onCompositionEndInternal. preserved keeps_registration.
    - apply same_registration_refl. }
  split; [exact H1|]. split; [exact H2|].
  split; intros e; unfold rootEditable.
  - destruct H1 as (-> & _ & _ & _ & ->). reflexivity.
  - destruct H2 as (-> & _ & _ & _ & ->). reflexivity.
Qed.

Lemma callHandler_idle (f : HandlerName) (event : Event) (target e : LexicalEditor) :
  f <> CompositionStart ->
  preserves (idle e) (callHandler f event target).
Proof.
  intros Hf. destruct f; cbn [callHandler]; [|by destruct Hf|..].
  - unfold onKeyDown, updateAndroidSoftKeyFlagIfAny. preserved keeps_idle.
  - unfold onCompositionEnd, onCompositionEndInternal. preserved keeps_idle.
  - unfold onInput. preserved keeps_idle.
  - unfold onClick. preserved keeps_idle.
  - unfold onBeforeInput, beforeInputSwitch, applyTargetRange.
    preserved keeps_idle.
Qed.

Lemma onCompositionStart_idle_elsewhere (event : Event) (target e : LexicalEditor) :
  target <> e ->
  preserves (idle e) (onCompositionStart event target).
Proof. intros Hother. unfold onCompositionStart. preserved keeps_idle. Qed.

Lemma onDocumentSelectionChange_idle (chain : list nat) (e : LexicalEditor) :
  preserves (idle e) (onDocumentSelectionChange chain).
Proof.
  induction chain as [|node parents IH]; cbn [onDocumentSelectionChange].
  - apply preserves_ret.
  - unfold mbind, M_bind.
    apply preserves_bind; [apply preserves_gets|intros el].
    destruct (contentEditable el =? "true")%string; [|exact IH].
    destruct (__lexicalEditor el) as [| |next]; [exact IH|apply preserves_throw|].
    unfold activateEditor, onSelectionChange. preserved keeps_idle.
Qed.

(** X11. A composition starts in [onCompositionStart] of the editor
    itself and nowhere else.  An editor that is not composing is still
    not composing after any other handler of the table has run for it,
    after any handler, [onCompositionStart] included, has run for
    another editor, after the callbacks of the timer queue have run, and
    after a selection change of the document. *)
Theorem composition_starts_only_in_onCompositionStart
    (f : HandlerName) (event : Event) (target e : LexicalEditor)
    (chain : list nat) (w : World) :
  idle e w ->
  (f <> CompositionStart \/ target <> e ->
   idle e (world (callHandler f event target w))) /\
  idle e (world (runTimers w)) /\
  idle e (world (onDocumentSelectionChange chain w)).
Proof.
  intros Hidle. split; [|split].
  - intros [Hf|Hother].
    + by apply callHandler_idle.
    + destruct f; try (by apply callHandler_idle).
      by apply onCompositionStart_idle_elsewhere.
  - apply (runTimers_preserves (idle e)); [by intros w0 H0| |exact Hidle].
    intros ev e'. unfold onCompositionEndInternal. preserved keeps_idle.
  - by apply onDocumentSelectionChange_idle.
Qed.

End EventFrame.

(** Two surfaces that are not editable, one inside the other, each
    attached for its editor: the twelve listeners of each attach are
    there, and a paste fired on the inner one does nothing on its way
    up. *)
Lemma dispatchEvent_not_editable_witness :
  let inner := Editor 5 "x" None in
  let outer := Editor 6 "y" None in
  let w := world ((addRootElementEvents (env := Sample.chromium) 5 inner ;;
                   addRootElementEvents (env := Sample.chromium) 6 outer)
                    Sample.world0) in
  let paste := Sample.inputEvent "paste" EmptyString None in
  length (listeners (elementObj w 5)) = 12%nat /\
  length (listeners (elementObj w 6)) = 12%nat /\
  dispatchEvent (env := Sample.chromium) (keys := Sample.keys) [5; 6]%nat paste w =
    mkOutcome (Ok tt) w [].
Proof.
  intros inner outer w paste. split; [reflexivity|]. split; [reflexivity|].
  apply dispatchEvent_not_editable. intros x l Hx Hl _.
  apply elem_of_cons in Hx as [->|Hx]; [|apply elem_of_cons in Hx as [->|Hx]].
  - vm_compute in Hl.
    repeat (apply elem_of_cons in Hl as [->|Hl]; [reflexivity|]).
    by apply elem_of_nil in Hl.
  - vm_compute in Hl.
    repeat (apply elem_of_cons in Hl as [->|Hl]; [reflexivity|]).
    by apply elem_of_nil in Hl.
  - by apply elem_of_nil in Hx.
Defined.

(** A composition that starts in the nested editor [a] leaves the root
    editor idle, and [a] composing. *)
Lemma composition_starts_only_in_onCompositionStart_witness :
  let start := Sample.inputEvent "compositionstart" EmptyString None in
  let w1 := world (onCompositionStart start Sample.nestedA Sample.world0) in
  idle Sample.root w1 /\ ~ idle Sample.nestedA w1.
Proof.
  intros start w1. split; [|vm_compute; discriminate].
  destruct (composition_starts_only_in_onCompositionStart
              (env := Sample.chromium) (keys := Sample.keys)
              CompositionStart start Sample.nestedA Sample.root []
              Sample.world0 eq_refl) as (Hhandler & _).
  apply Hhandler. right. discriminate.
Defined.

(** ** The selection change of the document, in general *)
Section Activation.
Context {env : Environment} {keys : KeyPredicates} {engine : Engine}.

(** X12. A selection whose anchor is outside every editor concerns no
    editor: when no node on the way up from the anchor node is an
    editable element that carries a back-reference, the selection change
    of the document makes no update, sends no command and writes
    nothing. *)
Theorem onDocumentSelectionChange_outside (chain : list nat) (w : World) :
  foundEditor w chain = Undefined ->
  onDocumentSelectionChange chain w = mkOutcome (Ok tt) w [].
Proof.
  induction chain as [|node parents IH]; cbn [foundEditor onDocumentSelectionChange].
  - reflexivity.
  - unfold mbind, M_bind. rewrite bind_gets.
    destruct (contentEditable (elementObj w node) =? "true")%string; [|exact IH].
    destruct (__lexicalEditor (elementObj w node)); [exact IH|discriminate..].
Qed.




End Activation.

(** A caret in an editable element that no editor tracks: the selection
    change does nothing. *)
Lemma onDocumentSelectionChange_outside_witness :
  rootEditable Sample.world0 Sample.root = true /\
  onDocumentSelectionChange [9; 0]%nat Sample.world0 =
    mkOutcome (Ok tt) Sample.world0 [].
Proof.
  split; [reflexivity|].
  apply onDocumentSelectionChange_outside. reflexivity.
Defined.


(** ** Detach and attach again *)
Section Reattach.
Context {env : Environment} {keys : KeyPredicates} {engine : Engine}.

(** X14. A detach works once.  On an element whose back-reference is an
    editor the detach completes; it leaves the back-reference [null], so
    a second detach of the same element throws in
    [cleanActiveNestedEditorsMap] and changes nothing more. *)
Theorem detach_twice_throws (r : nat) (e : LexicalEditor) (w : World) :
  __lexicalEditor (elementObj w r) = Val e ->
  let once := removeRootElementEvents r w in
  let twice := (removeRootElementEvents r ;; removeRootElementEvents r) w in
  result once = Ok tt /\
  __lexicalEditor (elementObj (world once) r) = Null /\
  (exists err, result twice = Throw err) /\
  world twice = world once /\
  effects twice = [].
Proof.
  intros Hback once twice.
  destruct (removeRootElementEvents_spec r e w Hback)
    as (Hr & He & _ & _ & Hnull & _).
  fold once in Hr, He, Hnull.
  split; [exact Hr|]. split; [exact Hnull|].
  subst twice. unfold mbind, M_bind, bind. fold once.
  destruct once as [r1 w1 log1]. cbn in Hr, He, Hnull. subst r1 log1.
  cbn [world].
  unfold removeRootElementEvents at 1 2 3, cleanActiveNestedEditorsMap.
  unfold mbind, M_bind. rewrite !bind_gets, Hnull. unfold bind, throw.
  cbn. eauto.
Qed.

Lemma addDocumentSelectionChangeEvent_spec (r : nat) (e : LexicalEditor)
    (w : World) :
  let o := addDocumentSelectionChangeEvent r e w in
  result o = Ok tt /\
  effects o = [] /\
  elementObj (world o) r = with_lexicalEditor (Val e) (elementObj w r) /\
  closures (world o) = closures w.
Proof.
  unfold addDocumentSelectionChangeEvent. unfold_M. cbn.
  destruct (_lexicalEvent _); cbn; rewrite fn_lookup_insert; auto.
Qed.

(** A detach makes no function object. *)
Lemma removeRootElementEvents_closures (r : nat) (w : World) :
  closures (world (removeRootElementEvents r w)) = closures w.
Proof.
  assert (H : preserves (fun w' => closures w' = closures w)
                        (removeRootElementEvents r)).
  { unfold removeRootElementEvents, cleanActiveNestedEditorsMap,
      getRootElementRemoveHandles, clearRootElementRemoveHandles.
    preserved ltac:(intros ? ?; cbn; assumption).
    all: unfold callRemoveHandle, removeEventListener;
      preserved ltac:(intros ? ?; cbn; assumption). }
  by apply H.
Qed.

(** A step that completes without a call hands its world to the next. *)
Lemma seq_outcome (m1 m2 : M unit) (w w1 : World) :
  m1 w = mkOutcome (Ok tt) w1 [] ->
  (m1 ;; m2) w = m2 w1.
Proof.
  intros H1. unfold mbind, M_bind, bind. rewrite H1. by destruct (m2 w1).
Qed.

(** X15. Attach, detach, attach again.  On an element without listeners,
    an attach for the editor [e1], the registration of the
    back-reference, a detach and an attach for another editor [e2] all
    complete.  The element is left with the listeners of the last attach
    alone, one per entry of the table and all of them listeners of [e2],
    and with their removal handles alone: nothing of [e1] is left.  The
    back-reference stays [null], because an attach does not set it. *)
Theorem detach_then_attach_again (w : World) (r : nat) (e1 e2 : LexicalEditor) :
  listeners (elementObj w r) = [] ->
  let n := (closures w + length rootElementEvents)%nat in
  let o := (addRootElementEvents r e1 ;;
            addDocumentSelectionChangeEvent r e1 ;;
            removeRootElementEvents r ;;
            addRootElementEvents r e2) w in
  result o = Ok tt /\
  effects o = [] /\
  listeners (elementObj (world o) r) = listenersFrom n e2 rootElementEvents /\
  _lexicalEventHandles (elementObj (world o) r) =
    Some (handlesFrom r n rootElementEvents) /\
  __lexicalEditor (elementObj (world o) r) = Null.
Proof.
  intros Hfresh n o.
  set (w1 := world (addRootElementEvents r e1 w)).
  set (w2 := world (addDocumentSelectionChangeEvent r e1 w1)).
  set (w3 := world (removeRootElementEvents r w2)).
  destruct (addRootElementEvents_spec r e1 w) as (_ & _ & Hc1 & Hl1 & Hh1 & _).
  fold w1 in Hc1, Hl1, Hh1.
  rewrite Hfresh, add_fresh_listeners in Hl1
    by (intros l Hl; by apply elem_of_nil in Hl).
  cbn [app] in Hl1.
  destruct (addDocumentSelectionChangeEvent_spec r e1 w1) as (Hr2 & He2 & Hel2 & Hc2).
  fold w2 in Hel2, Hc2.
  assert (Hback2 : __lexicalEditor (elementObj w2 r) = Val e1) by by rewrite Hel2.
  destruct (removeRootElementEvents_spec r e1 w2 Hback2)
    as (Hr3 & He3 & Hl3 & Hh3 & Hnull3 & _).
  fold w3 in Hl3, Hh3, Hnull3.
  rewrite Hel2 in Hl3.
  cbn [with_lexicalEditor listeners _lexicalEventHandles] in Hl3.
  rewrite Hh1, Hl1 in Hl3.
  cbn [default from_option id] in Hl3.
  rewrite remaining_covered in Hl3 by (apply covered_more, handlesFrom_covers).
  pose proof (removeRootElementEvents_closures r w2) as Hc3. fold w3 in Hc3.
  destruct (addRootElementEvents_spec r e2 w3)
    as (Hr4 & He4 & _ & Hl4 & Hh4 & _ & _ & Hattr4).
  rewrite Hl3, add_fresh_listeners in Hl4
    by (intros l Hl; by apply elem_of_nil in Hl).
  rewrite Hh3 in Hh4. cbn [app default from_option id] in Hl4, Hh4.
  rewrite Hc3, Hc2, Hc1 in Hl4, Hh4. fold n in Hl4, Hh4.
  destruct (Hattr4 r) as (_ & _ & Hb4). rewrite Hnull3 in Hb4.
  assert (Ho : o = addRootElementEvents r e2 w3).
  { subst o.
    rewrite (seq_outcome _ _ w w1) by apply addRootElementEvents_outcome.
    rewrite (seq_outcome _ _ w1 w2)
      by (rewrite (outcome_eta (addDocumentSelectionChangeEvent r e1 w1));
          by rewrite Hr2, He2).
    rewrite (seq_outcome _ _ w2 w3)
      by (rewrite (outcome_eta (removeRootElementEvents r w2));
          by rewrite Hr3, He3).
    reflexivity. }
  rewrite Ho. auto.
Qed.

Lemma filter_none {A : Type} (f : A -> bool) (l : list A) :
  (forall x, x ∈ l -> f x = false) -> List.filter f l = [].
Proof.
  induction l as [|x l IH]; intros Hl; cbn; [reflexivity|].
  rewrite (Hl x) by apply list_elem_of_here.
  apply IH. intros y Hy. apply Hl. by apply list_elem_of_further.
Qed.

(** The listeners of an attach carry the entries of the table. *)
Lemma listenersFrom_entries (n : nat) (e : LexicalEditor)
    (table : list (string * OnEvent)) (l : Listener) :
  l ∈ listenersFrom n e table -> (l_eventName l, l_onEvent l) ∈ table.
Proof.
  revert n. induction table as [|[t onEvent] table IH]; intros n Hl; cbn in *.
  - by apply elem_of_nil in Hl.
  - apply elem_of_cons in Hl as [->|Hl]; [apply list_elem_of_here|].
    apply list_elem_of_further. by apply (IH (S n)).
Qed.

(** X16. After an attach the element listens to the event types of the
    table and to no other: an event of a type that the table does not
    list does nothing, on the element and on its way up through
    ancestors whose listeners are listeners of the table as well.  The
    table depends on the platform: where [beforeinput] is available a
    [drop] is not listened to, and where it is not available a
    [beforeinput] is not listened to. *)
Theorem unlisted_event_ignored (w : World) (r : nat) (ancestors : list nat)
    (e : LexicalEditor) (event : Event) :
  listeners (elementObj w r) = [] ->
  (forall x l, x ∈ ancestors -> l ∈ listeners (elementObj w x) ->
     (l_eventName l, l_onEvent l) ∈ rootElementEvents) ->
  (forall onEvent, (event_type event, onEvent) ∉ rootElementEvents) \/
  (CAN_USE_BEFORE_INPUT = true /\ event_type event = "drop") \/
  (CAN_USE_BEFORE_INPUT = false /\ event_type event = "beforeinput") ->
  let w1 := world (addRootElementEvents r e w) in
  dispatchEvent (r :: ancestors) event w1 = mkOutcome (Ok tt) w1 [].
Proof.
  intros Hfresh Habove Hunlisted w1.
  assert (Hout : forall onEvent, (event_type event, onEvent) ∉ rootElementEvents).
  { destruct Hunlisted as [H|[[Hcan ->]|[Hcan ->]]]; [exact H|..];
      intros onEvent Hin; unfold rootElementEvents in Hin; rewrite Hcan in Hin;
      cbn [app] in Hin;
      repeat (apply elem_of_cons in Hin as [Hin|Hin]; [discriminate Hin|]);
      by apply elem_of_nil in Hin. }
  destruct (addRootElementEvents_spec r e w) as (_ & _ & _ & Hl1 & _ & Hother & _).
  fold w1 in Hl1, Hother.
  rewrite Hfresh, add_fresh_listeners in Hl1
    by (intros l Hl; by apply elem_of_nil in Hl).
  cbn [app] in Hl1.
  assert (Htable : forall x l, x ∈ r :: ancestors ->
             l ∈ listeners (elementObj w1 x) ->
             (l_eventName l, l_onEvent l) ∈ rootElementEvents).
  { intros x l Hx Hl. destruct (decide (x = r)) as [->|Hne].
    - rewrite Hl1 in Hl. by apply listenersFrom_entries in Hl.
    - rewrite (Hother x Hne) in Hl.
      apply elem_of_cons in Hx as [->|Hx]; [by destruct Hne|].
      by apply (Habove x). }
  apply dispatchEvent_silent. intros x Hx.
  unfold invokeListeners. unfold mbind, M_bind. rewrite bind_gets.
  rewrite filter_none; [reflexivity|].
  intros l Hl. apply String.eqb_neq. intros Hname.
  apply (Htable x l Hx) in Hl. rewrite Hname in Hl.
  by apply (Hout (l_onEvent l)).
Qed.

(** The listeners that one attach makes for the event type of a handler
    of the table: exactly one, bound to the editor. *)
Lemma listenersFrom_handler (n : nat) (e : LexicalEditor) (t : string)
    (f : HandlerName) :
  (t, Fn f) ∈ rootElementEvents ->
  exists m,
    List.filter (fun l => (l_eventName l =? t)%string)
                (listenersFrom n e rootElementEvents) =
    [mkListener t m (Fn f) e].
Proof.
  unfold rootElementEvents. destruct CAN_USE_BEFORE_INPUT; cbn [app]; intros Hin;
    repeat (apply elem_of_cons in Hin as [Hin|Hin];
            [first [discriminate Hin
                   |injection Hin as -> ->; eexists; vm_compute; reflexivity]|]);
    by apply elem_of_nil in Hin.
Qed.

(** The listeners of the target after one attach: the handler that the
    table binds to the type of the event runs once. *)
Lemma invokeListeners_handler (w : World) (r : nat) (e : LexicalEditor)
    (event : Event) (f : HandlerName) :
  listeners (elementObj w r) = [] ->
  rootEditable w e = true ->
  (event_type event, Fn f) ∈ rootElementEvents ->
  let w1 := world (addRootElementEvents r e w) in
  invokeListeners r event w1 = reportError (callHandler f event e) w1.
Proof.
  intros Hfresh Heditable Hentry w1.
  destruct (addRootElementEvents_spec r e w) as (_ & _ & _ & Hl1 & _ & _ & Hout & Hattr).
  fold w1 in Hl1, Hout, Hattr.
  rewrite Hfresh, add_fresh_listeners in Hl1
    by (intros l Hl; by apply elem_of_nil in Hl).
  cbn [app] in Hl1.
  assert (Hedit1 : rootEditable w1 e = true)
    by (by rewrite (rootEditable_same w w1)).
  destruct (listenersFrom_handler (closures w) e _ f Hentry) as [m Hm].
  unfold invokeListeners. unfold mbind, M_bind. rewrite bind_gets, Hl1, Hm.
  cbn [for_each]. unfold bind, reportError, eventHandler, isRootEditable.
  unfold mbind, M_bind, bind, gets, when, ret. cbn [l_editor l_onEvent].
  rewrite Hedit1.
  destruct (callHandler f event e w1) as [r2 w2 log2]. cbn.
  by rewrite app_nil_r.
Qed.

(** X17. From the event to the handler.  Take an element without
    listeners whose ancestors on the propagation path have no listener
    either, and attach it once.  An event whose type the table binds to
    a handler, fired on the element, then runs that handler once, for
    the attached editor and with the event as argument, provided the
    root element of the editor is editable; an exception of the handler
    does not leave the listener; and nothing else runs while the event
    goes up. *)
Theorem attached_handler_runs_once (w : World) (r : nat) (ancestors : list nat)
    (e : LexicalEditor) (event : Event) (f : HandlerName) :
  listeners (elementObj w r) = [] ->
  r ∉ ancestors ->
  (forall x, x ∈ ancestors -> listeners (elementObj w x) = []) ->
  rootEditable w e = true ->
  (event_type event, Fn f) ∈ rootElementEvents ->
  let w1 := world (addRootElementEvents r e w) in
  dispatchEvent (r :: ancestors) event w1 = reportError (callHandler f event e) w1.
Proof.
  intros Hfresh Hpath Habove Heditable Hentry w1.
  destruct (addRootElementEvents_spec r e w) as (_ & _ & _ & _ & _ & Hother & _).
  fold w1 in Hother.
  rewrite dispatchEvent_target_only.
  - by apply invokeListeners_handler.
  - intros x Hx. rewrite Hother; [by apply Habove|].
    intros ->. by apply Hpath.
Qed.

End Reattach.

(** A tracked root element: the first detach completes, the second
    throws. *)
Lemma detach_twice_throws_witness :
  let w := world (addDocumentSelectionChangeEvent 0 Sample.root Sample.world0) in
  result (removeRootElementEvents 0 w) = Ok tt /\
  exists err,
    result ((removeRootElementEvents 0 ;; removeRootElementEvents 0) w) = Throw err.
Proof.
  intros w.
  destruct (detach_twice_throws 0 Sample.root w eq_refl) as (Honce & _ & Htwice & _).
  split; assumption.
Defined.

(** The root element 0 is attached for the root editor, detached and
    attached for the nested editor [a]: its twelve listeners are those
    of [a], made by the second attach. *)
Lemma detach_then_attach_again_witness :
  let o := (addRootElementEvents (env := Sample.chromium) 0 Sample.root ;;
            addDocumentSelectionChangeEvent 0 Sample.root ;;
            removeRootElementEvents 0 ;;
            addRootElementEvents (env := Sample.chromium) 0 Sample.nestedA)
             Sample.world0 in
  listeners (elementObj (world o) 0) =
    listenersFrom 12 Sample.nestedA (rootElementEvents (env := Sample.chromium)) /\
  __lexicalEditor (elementObj (world o) 0) = Null.
Proof.
  intros o.
  destruct (detach_then_attach_again (env := Sample.chromium)
              Sample.world0 0 Sample.root Sample.nestedA eq_refl)
    as (_ & _ & Hl & _ & Hb).
  split; assumption.
Defined.

(** Where [beforeinput] is available, a [drop] on an attached, editable
    root element does nothing. *)
Lemma unlisted_event_ignored_witness :
  let w1 := world (addRootElementEvents (env := Sample.chromium) 0 Sample.root
                                        Sample.world0) in
  let drop := Sample.inputEvent "drop" EmptyString None in
  rootEditable w1 Sample.root = true /\
  dispatchEvent (env := Sample.chromium) (keys := Sample.keys) [0]%nat drop w1 =
    mkOutcome (Ok tt) w1 [].
Proof.
  intros w1 drop. split; [reflexivity|].
  apply (unlisted_event_ignored (env := Sample.chromium) (keys := Sample.keys)
           Sample.world0 0 [] Sample.root drop eq_refl).
  - intros x l Hx. by apply elem_of_nil in Hx.
  - right. left. split; reflexivity.
Defined.

(** The Enter key on an attached root element, inside an element that
    nobody listens on, runs [onKeyDown] for the root editor, which sends
    [keyEnter] with the event. *)
Lemma attached_handler_runs_once_witness :
  let w1 := world (addRootElementEvents (env := Sample.chromium) 0 Sample.root
                                        Sample.world0) in
  let enter := Sample.keyEvent "Enter" 13 false in
  let o := dispatchEvent (env := Sample.chromium) (keys := Sample.keys)
                         [0; 7]%nat enter w1 in
  o = reportError (onKeyDown (keys := Sample.keys) enter Sample.root) w1 /\
  effects o = [ExecCommand Sample.root "keyEnter" (PEvent enter)].
Proof.
  intros w1 enter o. split; [|reflexivity].
  apply (attached_handler_runs_once (env := Sample.chromium) (keys := Sample.keys)
           Sample.world0 0 [7]%nat Sample.root enter KeyDown eq_refl).
  - intros [H|H]%elem_of_cons; [discriminate H|by apply elem_of_nil in H].
  - intros x Hx. reflexivity.
  - reflexivity.
  - vm_compute. apply list_elem_of_here.
Defined.

(** ** No listener survives a detach *)
Section NoLeak.
Context {env : Environment} {keys : KeyPredicates} {engine : Engine}.

#[local] Arguments for_each : simpl never.
#[local] Arguments rootElementEvents : simpl never.
#[local] Arguments cleanActiveNestedEditorsMap : simpl never.

(** What a detach that completes leaves on every element. *)
Lemma removeRootElementEvents_elements (r : nat) (e : LexicalEditor) (w : World) :
  __lexicalEditor (elementObj w r) = Val e ->
  let o := removeRootElementEvents r w in
  let hs := default [] (_lexicalEventHandles (elementObj w r)) in
  forall x,
    listeners (elementObj (world o) x) =
      remaining x hs (listeners (elementObj w x)) /\
    _lexicalEventHandles (elementObj (world o) x) =
      if bool_decide (x = r) then Some []
      else _lexicalEventHandles (elementObj w x).
Proof.
  intros Hback o0 hs0 x. subst o0 hs0.
  pose proof (cleanActiveNestedEditorsMap_spec e w) as Hspec. cbv zeta in Hspec.
  unfold removeRootElementEvents, getRootElementRemoveHandles,
    clearRootElementRemoveHandles.
  unfold_M. cbn. rewrite Hback.
  destruct (cleanActiveNestedEditorsMap (Val e) w) as [r1 w1 log1]. cbn in Hspec.
  destruct Hspec as (-> & -> & Hm & Hel & Hc & Hk & Hed & Hd & Ht). cbn.
  rewrite fn_lookup_insert. cbn. rewrite Hel.
  destruct (_lexicalEventHandles (elementObj w r)) as [hs|] eqn:Hhs; cbn.
  - match goal with
    | |- context [for_each hs callRemoveHandle ?w0] => set (w2 := w0)
    end.
    pose proof (callRemoveHandles_spec hs w2) as Hloop. cbv zeta in Hloop.
    rewrite for_each_pure.
    2:{ intros h w0. destruct (callRemoveHandle_spec h w0) as (? & ? & _). auto. }
    set (w3 := fold_left _ hs w2) in *.
    destruct Hloop as (Hx & _).
    cbn. destruct (Hx x) as [Hl Hh].
    assert (Hw2 : listeners (elementObj w2 x) = listeners (elementObj w x) /\
                  _lexicalEventHandles (elementObj w2 x) =
                  _lexicalEventHandles (elementObj w x)).
    { subst w2. cbn. destruct (decide (r = x)) as [->|Hne].
      - rewrite fn_lookup_insert. by cbn.
      - rewrite fn_lookup_insert_ne by exact Hne. by rewrite Hel. }
    destruct Hw2 as [Hl2 Hh2]. rewrite Hl2 in Hl. rewrite Hh2 in Hh.
    destruct (decide (x = r)) as [->|Hne].
    + rewrite fn_lookup_insert. cbn.
      rewrite bool_decide_eq_true_2 by reflexivity. by rewrite Hl.
    + rewrite fn_lookup_insert_ne by (intros H; by apply Hne).
      rewrite bool_decide_eq_false_2 by exact Hne. by rewrite Hl, Hh.
  - unfold for_each. cbn. rewrite !remaining_nil.
    destruct (decide (x = r)) as [->|Hne].
    + rewrite !fn_lookup_insert. cbn.
      by rewrite bool_decide_eq_true_2.
    + rewrite !fn_lookup_insert_ne by (intros H; by apply Hne).
      rewrite bool_decide_eq_false_2 by exact Hne. by rewrite Hel.
Qed.

Lemma remaining_subset (x : nat) (hs : list RemoveHandle) (ls : list Listener)
    (l : Listener) :
  l ∈ remaining x hs ls -> l ∈ ls.
Proof.
  unfold remaining. intros [Hl _]%list_elem_of_In%filter_In.
  by apply list_elem_of_In.
Qed.

Lemma no_listeners_registered_ok (w : World) :
  (forall x, listeners (elementObj w x) = []) -> registered_ok w.
Proof.
  intros Hnone x. rewrite Hnone.
  split; intros l Hl; by apply elem_of_nil in Hl.
Qed.

Lemma attach_registered (r : nat) (e : LexicalEditor) (w : World) :
  registered_ok w -> registered_ok (world (addRootElementEvents r e w)).
Proof.
  intros Hok x.
  destruct (addRootElementEvents_spec r e w) as (_ & _ & Hc & Hl & Hh & Hother & _).
  destruct (Hok r) as [Hcov Hfresh].
  rewrite add_fresh_listeners in Hl by exact Hfresh.
  destruct (decide (x = r)) as [->|Hne].
  - rewrite Hl, Hh, Hc. cbn [default from_option id]. split.
    + apply covered_app; [exact Hcov|apply handlesFrom_covers].
    + intros l [Hl'|Hl']%elem_of_app.
      * apply Hfresh in Hl'. lia.
      * by apply listenersFrom_closure in Hl'.
  - rewrite (Hother x Hne), Hc. destruct (Hok x) as [Hcx Hfx].
    split; [exact Hcx|]. intros l Hl'. apply Hfx in Hl'. lia.
Qed.

Lemma track_registered (r : nat) (e : LexicalEditor) (w : World) :
  registered_ok w -> registered_ok (world (addDocumentSelectionChangeEvent r e w)).
Proof.
  intros Hok x. specialize (Hok x). revert Hok.
  unfold addDocumentSelectionChangeEvent. unfold_M. cbn.
  destruct (_lexicalEvent _); cbn;
    (destruct (decide (r = x)) as [->|Hne];
     [rewrite fn_lookup_insert | rewrite fn_lookup_insert_ne by exact Hne]);
    by cbn.
Qed.

Lemma detach_registered (r : nat) (w : World) :
  registered_ok w -> registered_ok (world (removeRootElementEvents r w)).
Proof.
  intros Hok.
  destruct (__lexicalEditor (elementObj w r)) as [| |e] eqn:Hback.
  - destruct (detach_without_editor_throws r w) as [-> _]; [by left|exact Hok].
  - destruct (detach_without_editor_throws r w) as [-> _]; [by right|exact Hok].
  - intros x. destruct (Hok x) as [Hcx Hfx].
    destruct (removeRootElementEvents_elements r e w Hback x) as [Hl Hh].
    rewrite Hl, Hh, removeRootElementEvents_closures.
    destruct (decide (x = r)) as [->|Hne].
    + rewrite bool_decide_eq_true_2 by reflexivity.
      rewrite remaining_covered by exact Hcx.
      split; intros l Hl'; by apply elem_of_nil in Hl'.
    + rewrite bool_decide_eq_false_2 by exact Hne. split.
      * intros l Hl'%remaining_subset. by apply Hcx.
      * intros l Hl'%remaining_subset. by apply Hfx.
Qed.

Lemma callHandler_registered (f : HandlerName) (event : Event) (e : LexicalEditor) :
  preserves registered_ok (callHandler f event e).
Proof.
  destruct f; cbn [callHandler].
  - unfold onKeyDown, updateAndroidSoftKeyFlagIfAny.
    preserved ltac:(intros ? H; exact H).
  - unfold onCompositionStart. preserved ltac:(intros ? H; exact H).
  - unfold onCompositionEnd, onCompositionEndInternal.
    preserved ltac:(intros ? H; exact H).
  - unfold onInput. preserved ltac:(intros ? H; exact H).
  - unfold onClick. preserved ltac:(intros ? H; exact H).
  - unfold onBeforeInput, beforeInputSwitch, applyTargetRange.
    preserved ltac:(intros ? H; exact H).
Qed.

Lemma onDocumentSelectionChange_registered (chain : list nat) :
  preserves registered_ok (onDocumentSelectionChange chain).
Proof.
  induction chain as [|node parents IH]; cbn [onDocumentSelectionChange].
  - apply preserves_ret.
  - unfold mbind, M_bind.
    apply preserves_bind; [apply preserves_gets|intros el].
    destruct (contentEditable el =? "true")%string; [|exact IH].
    destruct (__lexicalEditor el) as [| |next]; [exact IH|apply preserves_throw|].
    unfold activateEditor, onSelectionChange.
    preserved ltac:(intros ? H; exact H).
Qed.

Lemma step_registered (s : Step) : preserves registered_ok (step s).
Proof.
  destruct s as [chain|r e|r e|r|r event|]; cbn [step]; intros w Hok.
  - by apply onDocumentSelectionChange_registered.
  - by apply attach_registered.
  - by apply track_registered.
  - by apply detach_registered.
  - apply dispatchEvent_preserves;
      [intros f e; apply callHandler_registered|exact Hok].
  - apply runTimers_preserves; [by intros w0 H0| |exact Hok].
    intros ev e. unfold onCompositionEndInternal.
    preserved ltac:(intros ? H; exact H).
Qed.

Lemma run_registered (steps : list Step) (w : World) :
  registered_ok w -> registered_ok (world (run steps w)).
Proof.
  revert w. induction steps as [|s steps IH]; intros w Hok.
  - exact Hok.
  - rewrite run_cons. apply IH. by apply step_registered.
Qed.

(** X18. No listener survives a detach, whatever came before.  Start
    from a page on which no element has a listener, and let any sequence
    of attaches (repeated or not, for any editors), registrations of
    back-references, detaches, selection changes, events and timer turns
    run.  If the back-reference of an element is then an editor, the
    detach of the element completes and leaves it without a single
    listener and with an empty handle list.  An event fired on the
    element afterwards runs no listener of the element: what happens is
    what its ancestors on the propagation path do with the event when it
    bubbles, and nothing at all when it does not bubble. *)
Theorem no_listener_survives_detach
    (steps : list Step) (w : World) (r : nat) (e : LexicalEditor) :
  (forall x, listeners (elementObj w x) = []) ->
  let w1 := world (run steps w) in
  __lexicalEditor (elementObj w1 r) = Val e ->
  let w2 := world (removeRootElementEvents r w1) in
  result (removeRootElementEvents r w1) = Ok tt /\
  listeners (elementObj w2 r) = [] /\
  _lexicalEventHandles (elementObj w2 r) = Some [] /\
  (forall event, invokeListeners r event w2 = mkOutcome (Ok tt) w2 []) /\
  (forall ancestors event,
      dispatchEvent (r :: ancestors) event w2 =
      if bubbles event then dispatchEvent ancestors event w2
      else mkOutcome (Ok tt) w2 []).
Proof.
  intros Hnone w1 Hback w2.
  assert (Hok : registered_ok w1)
    by (by apply run_registered, no_listeners_registered_ok).
  destruct (removeRootElementEvents_spec r e w1 Hback) as (Hr & _ & Hl & Hh & _).
  fold w2 in Hl, Hh.
  destruct (Hok r) as [Hcov _].
  rewrite remaining_covered in Hl by exact Hcov.
  split; [exact Hr|]. split; [exact Hl|]. split; [exact Hh|].
  split; [intros event; by apply invokeListeners_no_listener|].
  intros ancestors event.
  rewrite (dispatchEvent_cons r ancestors event w2 w2 [])
    by (by apply invokeListeners_no_listener).
  cbn. destruct (bubbles event); cbn; [|reflexivity].
  symmetry. apply outcome_eta.
Qed.

End NoLeak.

(** The root element 0 is attached twice, for two editors, and events
    happen: it has twenty-four listeners, and none after the detach. *)
Lemma no_listener_survives_detach_witness :
  let steps := [ Attach 0 Sample.root; Attach 0 Sample.nestedA;
                 Track 0 Sample.root;
                 Fire [0]%nat (Sample.inputEvent "paste" EmptyString None);
                 SelectionChange [9; 0]%nat ] in
  let w1 := world (run (env := Sample.chromium) (keys := Sample.keys)
                       steps Sample.world0) in
  length (listeners (elementObj w1 0)) = 24%nat /\
  listeners (elementObj (world (removeRootElementEvents 0 w1)) 0) = [].
Proof.
  intros steps w1. split; [vm_compute; reflexivity|].
  destruct (no_listener_survives_detach
              (env := Sample.chromium) (keys := Sample.keys)
              steps Sample.world0 0 Sample.root) as (_ & Hl & _).
  - intros x. reflexivity.
  - vm_compute. reflexivity.
  - exact Hl.
Defined.

(** ** A composition from start to end *)
Section CompositionRoundTrip.
Context {env : Environment} {keys : KeyPredicates} {engine : Engine}.

(** X19. A composition from start to end, on every platform.  On an
    idle editor with a selection, the composition start records the key
    of the anchor; while the composition lasts a key down makes no call.
    After the composition end and the next turn of the event loop (which
    on Firefox runs the deferred reconciliation, and elsewhere finds the
    timer queue empty) the editor is idle again and nothing waits in the
    queue: a key down is translated by the table as before. *)
Theorem composition_round_trip
    (w : World) (start stop keyDown : Event) (e : LexicalEditor)
    (sel : RangeSelection) :
  selection (editorObj w e) = Some sel ->
  idle e w ->
  timers w = [] ->
  let started := world (onCompositionStart start e w) in
  let ended := world ((onCompositionEnd stop e ;; runTimers) started) in
  _compositionKey (editorObj started e) = Some (key (anchor sel)) /\
  effects (onKeyDown keyDown e started) = [] /\
  idle e ended /\
  timers ended = [] /\
  effects (onKeyDown keyDown e ended) =
    performed (translate (modifierState keyDown)) keyDown e.
Proof.
  intros Hsel Hidle Hq started ended. unfold idle in Hidle.
  assert (Hstarted : _compositionKey (editorObj started e) = Some (key (anchor sel)) /\
                     timers started = []).
  { subst started. unfold onCompositionStart. unfold_M. cbn.
    rewrite Hsel, Hidle. cbn.
    destruct (_ || _ || _); cbn; rewrite fn_lookup_insert; auto. }
  destruct Hstarted as [Hk Hq1].
  assert (Hended : idle e ended /\ timers ended = []).
  { subst ended. unfold idle.
    unfold onCompositionEnd, runTimers, runTask, onCompositionEndInternal, reportError.
    destruct IS_FIREFOX; unfold_M; cbn; rewrite Hq1; cbn;
      rewrite fn_lookup_insert; auto. }
  destruct Hended as [Hidle2 Hq2].
  split; [exact Hk|]. split; [|split; [exact Hidle2|split; [exact Hq2|]]].
  - unfold onKeyDown, updateAndroidSoftKeyFlagIfAny. unfold_M. cbn.
    rewrite Hk. by rewrite bool_decide_eq_true_2.
  - by apply onKeyDown_effects.
Qed.

End CompositionRoundTrip.

(** On Firefox: after the composition start the Enter key is ignored;
    after the composition end and a turn of the event loop it sends
    [keyEnter] again. *)
Lemma composition_round_trip_witness :
  let start := Sample.inputEvent "compositionstart" EmptyString None in
  let stop := Sample.inputEvent "compositionend" EmptyString None in
  let enter := Sample.keyEvent "Enter" 13 false in
  let started := world (onCompositionStart start Sample.root Sample.world0) in
  let ended := world ((onCompositionEnd (env := Sample.firefox) stop Sample.root ;;
                       runTimers) started) in
  effects (onKeyDown (keys := Sample.keys) enter Sample.root started) = [] /\
  effects (onKeyDown (keys := Sample.keys) enter Sample.root ended) =
    [ExecCommand Sample.root "keyEnter" (PEvent enter)].
Proof.
  intros start stop enter started ended.
  destruct (composition_round_trip
              (env := Sample.firefox) (keys := Sample.keys)
              Sample.world0 start stop enter Sample.root
              (Sample.caretAt "t" 1 text) eq_refl eq_refl eq_refl)
    as (_ & Hduring & _ & _ & Hafter).
  split; [exact Hduring|]. etransitivity; [exact Hafter|reflexivity].
Defined.

(** ** Attach twice *)
Section AttachTwice.
Context {env : Environment} {keys : KeyPredicates} {engine : Engine}.

Lemma rootEditable_registration (w w' : World) (e : LexicalEditor) :
  same_registration w w' -> rootEditable w' e = rootEditable w e.
Proof. intros (Hel & _ & _ & _ & Hroot). unfold rootEditable. by rewrite Hel, Hroot. Qed.

(** The listener that an attach makes for a handler of the table runs
    the handler, when the root element of its editor is editable. *)
Lemma eventHandler_handler (l : Listener) (f : HandlerName) (e : LexicalEditor)
    (event : Event) (w : World) :
  l_onEvent l = Fn f -> l_editor l = e -> rootEditable w e = true ->
  reportError (eventHandler l event) w = reportError (callHandler f event e) w.
Proof.
  intros Hf He Heditable. unfold reportError, eventHandler, isRootEditable.
  unfold mbind, M_bind. rewrite bind_gets. by rewrite Hf, He, Heditable.
Qed.

(** Two listeners in a row. *)
Lemma for_each_two (h1 h2 : M unit) (w : World) :
  bind h1 (fun _ => bind h2 (fun _ => ret tt)) w = bind h1 (fun _ => h2) w.
Proof.
  unfold bind, ret. destruct (h1 w) as [[[]|err] w1 log1]; [|reflexivity].
  destruct (h2 w1) as [[[]|err] w2 log2]; [|reflexivity].
  by rewrite app_nil_r.
Qed.

Lemma bind_ext_at {A B : Type} (m m' : M A) (k k' : A -> M B) (w : World) :
  m w = m' w ->
  (forall a, k a (world (m w)) = k' a (world (m w))) ->
  bind m k w = bind m' k' w.
Proof.
  intros Hm Hk. unfold bind. rewrite <- Hm.
  destruct (m w) as [[a|err] w1 log1]; [|reflexivity].
  cbn in Hk. by rewrite Hk.
Qed.

(** C4 (as the code has it).  Take a surface without listeners whose
    ancestors on the propagation path have no listeners either.  A
    second attach before a detach registers every listener of the table
    a second time (the handlers are new function objects, so the
    platform keeps both), and both run for one event.  On an editable
    surface a pass-through event then sends its command twice, where a
    single attach sends it once; an event that the table binds to a
    handler runs the handler twice in a row, where a single attach runs
    it once (how many commands the second run sends is the handler's
    business).  A detach that follows completes, calls the removal
    handles of both attaches and leaves the surface without listeners
    and with an empty handle list: no handler registered before fires
    again, and an event fired on the surface does nothing. *)
Theorem attach_twice_registers_twice_detach_reverses
    (w : World) (rootElement : nat) (ancestors : list nat)
    (editor back : LexicalEditor) :
  listeners (elementObj w rootElement) = [] ->
  rootElement ∉ ancestors ->
  (forall x, x ∈ ancestors -> listeners (elementObj w x) = []) ->
  __lexicalEditor (elementObj w rootElement) = Val back ->
  let attach := addRootElementEvents rootElement editor in
  let path := rootElement :: ancestors in
  let n := closures w in
  let k := length rootElementEvents in
  let w1 := world (attach w) in
  let w2 := world ((attach ;; attach) w) in
  let w3 := world (removeRootElementEvents rootElement w2) in
  listeners (elementObj w1 rootElement) =
    listenersFrom n editor rootElementEvents /\
  listeners (elementObj w2 rootElement) =
    listenersFrom n editor rootElementEvents ++
    listenersFrom (n + k) editor rootElementEvents /\
  (forall event,
      (event_type event, PASS_THROUGH_COMMAND) ∈ rootElementEvents ->
      rootEditable w editor = true ->
      commandStream attach path [event] w =
        [(event_type event, PEvent event)] /\
      commandStream (attach ;; attach) path [event] w =
        [(event_type event, PEvent event); (event_type event, PEvent event)]) /\
  (forall event f,
      (event_type event, Fn f) ∈ rootElementEvents ->
      rootEditable w editor = true ->
      let handler := reportError (callHandler f event editor) in
      dispatchEvent path event w1 = handler w1 /\
      dispatchEvent path event w2 = (handler ;; handler) w2) /\
  result (removeRootElementEvents rootElement w2) = Ok tt /\
  listeners (elementObj w3 rootElement) = [] /\
  _lexicalEventHandles (elementObj w3 rootElement) = Some [] /\
  (forall event, dispatchEvent path event w3 = mkOutcome (Ok tt) w3 []).
Proof.
  intros Hfresh Hpath Habove Hback attach path n k w1 w2 w3.
  pose proof (addRootElementEvents_outcome rootElement editor w) as Ha1.
  fold attach in Ha1. fold w1 in Ha1.
  pose proof (addRootElementEvents_outcome rootElement editor w1) as Ha2.
  fold attach in Ha2.
  assert (Haa : (attach ;; attach) w = mkOutcome (Ok tt) (world (attach w1)) []).
  { unfold mbind, M_bind, bind. by rewrite Ha1, Ha2. }
  assert (Hw2 : w2 = world (attach w1)) by (subst w2; by rewrite Haa).
  destruct (addRootElementEvents_spec rootElement editor w)
    as (_ & _ & Hc1 & Hl1 & Hh1 & Hother1 & Hout1 & Hattr1).
  destruct (addRootElementEvents_spec rootElement editor w1)
    as (_ & _ & _ & Hl2 & Hh2 & Hother2 & Hout2 & Hattr2).
  fold attach in Hc1, Hl1, Hh1, Hother1, Hout1, Hattr1,
                 Hl2, Hh2, Hother2, Hout2, Hattr2.
  fold w1 in Hc1, Hl1, Hh1, Hother1, Hout1, Hattr1,
             Hl2, Hh2, Hother2, Hout2, Hattr2.
  rewrite <- Hw2 in Hl2, Hh2, Hother2, Hout2, Hattr2.
  fold n in Hc1, Hl1, Hh1. fold k in Hc1.
  rewrite Hfresh, add_fresh_listeners in Hl1 by (intros l Hl; by apply elem_of_nil in Hl).
  cbn [app] in Hl1.
  rewrite Hc1, Hl1, add_fresh_listeners in Hl2
    by (intros l Hl; by apply listenersFrom_closure in Hl).
  rewrite Hc1, Hh1 in Hh2. cbn [default from_option id] in Hh2.
  assert (Hedit1 : rootEditable w1 editor = rootEditable w editor)
    by (by apply rootEditable_same).
  assert (Hedit2 : rootEditable w2 editor = rootEditable w1 editor)
    by (by apply rootEditable_same).
  assert (Hback2 : __lexicalEditor (elementObj w2 rootElement) = Val back).
  { destruct (Hattr2 rootElement) as (_ & _ & ->).
    destruct (Hattr1 rootElement) as (_ & _ & ->). exact Hback. }
  destruct (removeRootElementEvents_spec rootElement back w2 Hback2)
    as (Hr3 & _ & Hl3 & Hh3 & _).
  fold w3 in Hl3, Hh3.
  rewrite Hh2, Hl2 in Hl3. cbn [default from_option id] in Hl3.
  rewrite remaining_covered in Hl3
    by (apply covered_app; [apply covered_more|]; apply handlesFrom_covers).
  assert (Hne : forall x, x ∈ ancestors -> x <> rootElement)
    by (intros x Hx ->; by apply Hpath).
  assert (Habove1 : forall x, x ∈ ancestors -> listeners (elementObj w1 x) = []).
  { intros x Hx. rewrite Hother1 by (by apply Hne). by apply Habove. }
  assert (Habove2 : forall x, x ∈ ancestors -> listeners (elementObj w2 x) = []).
  { intros x Hx. rewrite Hother2 by (by apply Hne). by apply Habove1. }
  assert (Habove3 : forall x, x ∈ ancestors -> listeners (elementObj w3 x) = []).
  { intros x Hx.
    destruct (removeRootElementEvents_elements rootElement back w2 Hback2 x)
      as [Hx3 _].
    fold w3 in Hx3. by rewrite Hx3, Habove2. }
  split; [exact Hl1|]. split; [exact Hl2|]. split; [|split].
  - intros event Hpass Heditable.
    destruct (listenersFrom_passthrough n editor _ Hpass) as [m1 Hm1].
    destruct (listenersFrom_passthrough (n + k) editor _ Hpass) as [m2 Hm2].
    assert (Hd1 := invokeListeners_passthrough rootElement event w1).
    assert (Hd2 := invokeListeners_passthrough rootElement event w2).
    rewrite Hl1, Hm1 in Hd1. rewrite Hl2, filter_app, Hm1, Hm2 in Hd2.
    rewrite <- Hw2 in Haa.
    split.
    + erewrite commandStream_one; cycle 1;
        [exact Ha1
        |unfold path; rewrite dispatchEvent_target_only by exact Habove1; apply Hd1
        |reflexivity].
      intros l Hl Hname.
      destruct (listenersFrom_passthrough_only n editor _ l Hpass Hl Hname)
        as [Hp ->].
      split; [exact Hp|]. by rewrite Hedit1.
    + erewrite commandStream_one; cycle 1;
        [exact Haa
        |unfold path; rewrite dispatchEvent_target_only by exact Habove2; apply Hd2
        |reflexivity].
      intros l Hl Hname.
      apply elem_of_app in Hl as [Hl|Hl];
        destruct (listenersFrom_passthrough_only _ editor _ l Hpass Hl Hname)
          as [Hp ->];
        (split; [exact Hp|]; by rewrite Hedit2, Hedit1).
  - intros event f Hentry Heditable handler.
    destruct (listenersFrom_handler n editor _ f Hentry) as [m1 Hm1].
    destruct (listenersFrom_handler (n + k) editor _ f Hentry) as [m2 Hm2].
    assert (He1 : rootEditable w1 editor = true) by (by rewrite Hedit1).
    assert (He2 : rootEditable w2 editor = true) by (by rewrite Hedit2).
    unfold path. split.
    + rewrite dispatchEvent_target_only by exact Habove1.
      by apply invokeListeners_handler.
    + rewrite dispatchEvent_target_only by exact Habove2.
      unfold invokeListeners. unfold mbind, M_bind. rewrite bind_gets.
      rewrite Hl2, filter_app, Hm1, Hm2. cbn [app for_each].
      rewrite for_each_two. apply bind_ext_at.
      * by apply (eventHandler_handler _ f editor).
      * intros _. apply (eventHandler_handler _ f editor); [reflexivity..|].
        rewrite (eventHandler_handler _ f editor) by done.
        rewrite (rootEditable_registration w2); [exact He2|].
        apply preserves_reportError; [|apply same_registration_refl].
        apply callHandler_same_registration.
  - split; [exact Hr3|]. split; [exact Hl3|]. split; [exact Hh3|].
    intros event. apply dispatchEvent_silent. intros x Hx.
    apply invokeListeners_no_listener.
    apply elem_of_cons in Hx as [->|Hx]; [exact Hl3|by apply Habove3].
Qed.

End AttachTwice.

(** A tracked, editable root element inside an element that nobody
    listens on.  Attached twice, a paste reaches the dispatch sink
    twice and the Enter key sends [keyEnter] twice; a composition start
    sends its space once, because the second run of the handler finds
    the editor composing.  After the detach no listener is left. *)
Lemma attach_twice_registers_twice_detach_reverses_witness :
  let w := world (addDocumentSelectionChangeEvent 0 Sample.root Sample.world0) in
  let attach := addRootElementEvents (env := Sample.chromium) 0 Sample.root in
  let stream := commandStream (env := Sample.chromium) (keys := Sample.keys) in
  let paste := Sample.inputEvent "paste" EmptyString None in
  let enter := Sample.keyEvent "Enter" 13 false in
  let start := Sample.inputEvent "compositionstart" EmptyString None in
  stream attach [0; 7]%nat [paste] w = [("paste", PEvent paste)] /\
  stream (attach ;; attach) [0; 7]%nat [paste] w =
    [("paste", PEvent paste); ("paste", PEvent paste)] /\
  stream (attach ;; attach) [0; 7]%nat [enter] w =
    [("keyEnter", PEvent enter); ("keyEnter", PEvent enter)] /\
  stream (attach ;; attach) [0; 7]%nat [start] w = [("insertText", PString " ")] /\
  listeners
    (elementObj (world (removeRootElementEvents 0 (world ((attach ;; attach) w)))) 0)
    = [].
Proof.
  intros w attach stream paste enter start.
  destruct (attach_twice_registers_twice_detach_reverses
              (env := Sample.chromium) (keys := Sample.keys)
              w 0%nat [7]%nat Sample.root Sample.root eq_refl)
    as (_ & _ & Hstream & _ & _ & Hnone & _).
  - intros [H|H]%elem_of_cons; [discriminate H|by apply elem_of_nil in H].
  - intros x [->|Hx]%elem_of_cons; [reflexivity|by apply elem_of_nil in Hx].
  - reflexivity.
  - destruct (Hstream paste) as [Honce Htwice].
    + vm_compute. repeat first [apply list_elem_of_here | apply list_elem_of_further].
    + reflexivity.
    + split; [exact Honce|]. split; [exact Htwice|].
      split; [vm_compute; reflexivity|]. split; [vm_compute; reflexivity|].
      exact Hnone.
Defined.

(** C4 as stated fails: on an editable root element without listeners
    and without ancestors, the command stream of a paste after two
    attaches is not the stream after one attach; the command is sent
    twice. *)
Lemma attach_twice_duplicates_commands :
  let w := Sample.world0 in
  let attach := addRootElementEvents (env := Sample.chromium) 0 Sample.root in
  let stream := commandStream (env := Sample.chromium) (keys := Sample.keys) in
  let paste := Sample.inputEvent "paste" EmptyString None in
  listeners (elementObj w 0) = [] /\
  rootEditable w Sample.root = true /\
  stream attach [0]%nat [paste] w = [("paste", PEvent paste)] /\
  stream (attach ;; attach) [0]%nat [paste] w =
    [("paste", PEvent paste); ("paste", PEvent paste)] /\
  stream (attach ;; attach) [0]%nat [paste] w <> stream attach [0]%nat [paste] w.
Proof. vm_compute. repeat split. discriminate. Qed.

(** ** Events between nested surfaces *)
Section Bubbling.
Context {env : Environment} {keys : KeyPredicates} {engine : Engine}.

(** [onInput] calls [stopPropagation] whatever else it does. *)
Lemma onInput_stops_propagation (event : Event) (e : LexicalEditor) (w : World) :
  existsb is_stopPropagation (effects (onInput event e w)) = true.
Proof.
  unfold onInput. unfold mbind, M_bind. unfold bind at 1. unfold call at 1.
  by destruct (update e _ w).
Qed.

(** X20. An input event does not reach the editor around a nested
    editor.  After one attach of an element without listeners, for an
    editor whose root element is editable, an [input] event fired on the
    element runs [onInput] for that editor and stops there, because
    [onInput] calls [stopPropagation] first: whatever listeners the
    ancestors on the propagation path have, none of them runs. *)
Theorem input_does_not_bubble (w : World) (r : nat) (ancestors : list nat)
    (e : LexicalEditor) (event : Event) :
  listeners (elementObj w r) = [] ->
  rootEditable w e = true ->
  event_type event = "input" ->
  let w1 := world (addRootElementEvents r e w) in
  dispatchEvent (r :: ancestors) event w1 = reportError (onInput event e) w1.
Proof.
  intros Hfresh Heditable Htype w1.
  assert (Hentry : (event_type event, Fn Input) ∈ rootElementEvents).
  { rewrite Htype. unfold rootElementEvents. apply elem_of_app. left.
    repeat first [apply list_elem_of_here | apply list_elem_of_further]. }
  pose proof (invokeListeners_handler w r e event Input Hfresh Heditable Hentry)
    as Hinvoke.
  cbv zeta in Hinvoke. fold w1 in Hinvoke. cbn [callHandler] in Hinvoke.
  pose proof (onInput_stops_propagation event e w1) as Hstop.
  unfold reportError in Hinvoke |- *.
  destruct (onInput event e w1) as [r1 w2 log1]. cbn [effects] in Hstop.
  rewrite (dispatchEvent_cons r ancestors event w1 w2 log1 Hinvoke).
  by rewrite Hstop.
Qed.

(** X21. A pass-through event goes up from a nested surface.  Let an
    inner element carry the listeners of one attach for the editor [e1]
    and an element around it those of one attach for the editor [e0],
    both editors with an editable root element, and let no element
    further up have a listener.  A pass-through event fired on the inner
    element sends its command to [e1] and then, when the event bubbles,
    to [e0] as well; [focus] and [blur], which do not bubble, send it to
    [e1] alone. *)
Theorem passthrough_event_bubbles
    (w : World) (inner outer : nat) (above : list nat)
    (e1 e0 : LexicalEditor) (n1 n0 : nat) (event : Event) :
  listeners (elementObj w inner) = listenersFrom n1 e1 rootElementEvents ->
  listeners (elementObj w outer) = listenersFrom n0 e0 rootElementEvents ->
  (forall x, x ∈ above -> listeners (elementObj w x) = []) ->
  rootEditable w e1 = true ->
  rootEditable w e0 = true ->
  (event_type event, PASS_THROUGH_COMMAND) ∈ rootElementEvents ->
  dispatchEvent (inner :: outer :: above) event w =
  mkOutcome (Ok tt) w
    (ExecCommand e1 (event_type event) (PEvent event) ::
     if bubbles event
     then [ExecCommand e0 (event_type event) (PEvent event)]
     else []).
Proof.
  intros Hinner Houter Habove Hedit1 Hedit0 Hpass.
  assert (Hrun : forall x n e,
             listeners (elementObj w x) = listenersFrom n e rootElementEvents ->
             rootEditable w e = true ->
             invokeListeners x event w =
             mkOutcome (Ok tt) w [ExecCommand e (event_type event) (PEvent event)]).
  { intros x n e Hx Hedit.
    destruct (listenersFrom_passthrough n e _ Hpass) as [m Hm].
    rewrite invokeListeners_passthrough.
    - by rewrite Hx, Hm.
    - intros l Hl Hname. rewrite Hx in Hl.
      destruct (listenersFrom_passthrough_only n e _ l Hpass Hl Hname) as [Hp ->].
      by split. }
  rewrite (dispatchEvent_cons inner (outer :: above) event w w _
             (Hrun inner n1 e1 Hinner Hedit1)).
  cbn [existsb is_stopPropagation orb].
  destruct (bubbles event); cbn [negb]; [|reflexivity].
  rewrite dispatchEvent_target_only by exact Habove.
  by rewrite (Hrun outer n0 e0 Houter Hedit0).
Qed.

End Bubbling.

(** The surface of the nested editor [a] lies inside the surface of the
    root editor, and both are attached.  An input event fired on the
    inner surface is handled by [a] alone. *)
Lemma input_does_not_bubble_witness :
  let w := world (addRootElementEvents (env := Sample.chromium) 0 Sample.root
                                       Sample.world0) in
  let w1 := world (addRootElementEvents (env := Sample.chromium) 1 Sample.nestedA w) in
  let input := Sample.inputEvent "input" "insertText" (Some "x") in
  effects (dispatchEvent (env := Sample.chromium) (keys := Sample.keys)
                         [1; 0]%nat input w1) =
    [ StopPropagation input; Update Sample.nestedA;
      ExecCommand Sample.nestedA "insertText" (PString "x");
      FlushMutations Sample.nestedA ].
Proof.
  intros w w1 input.
  pose proof (input_does_not_bubble (env := Sample.chromium) (keys := Sample.keys)
                w 1 [0]%nat Sample.nestedA input eq_refl eq_refl eq_refl) as H.
  cbv zeta in H.
  etransitivity; [exact (f_equal effects H)|reflexivity].
Defined.

(** The same two surfaces: a paste fired on the inner one sends [paste]
    to the nested editor and then to the root editor; a focus sends
    [focus] to the nested editor alone. *)
Lemma passthrough_event_bubbles_witness :
  let w := world ((addRootElementEvents (env := Sample.chromium) 0 Sample.root ;;
                   addRootElementEvents (env := Sample.chromium) 1 Sample.nestedA)
                    Sample.world0) in
  let paste := Sample.inputEvent "paste" EmptyString None in
  let focus := Sample.inputEvent "focus" EmptyString None in
  let fire := dispatchEvent (env := Sample.chromium) (keys := Sample.keys) in
  effects (fire [1; 0; 7]%nat paste w) =
    [ ExecCommand Sample.nestedA "paste" (PEvent paste);
      ExecCommand Sample.root "paste" (PEvent paste) ] /\
  effects (fire [1; 0; 7]%nat focus w) =
    [ ExecCommand Sample.nestedA "focus" (PEvent focus) ].
Proof.
  intros w paste focus fire.
  assert (Habove : forall x, x ∈ [7%nat] -> listeners (elementObj w x) = []).
  { intros x [->|Hx]%elem_of_cons; [reflexivity|by apply elem_of_nil in Hx]. }
  assert (Hfire : forall event,
             (event_type event, PASS_THROUGH_COMMAND) ∈
               rootElementEvents (env := Sample.chromium) ->
             effects (fire [1; 0; 7]%nat event w) =
             ExecCommand Sample.nestedA (event_type event) (PEvent event) ::
             if bubbles event
             then [ExecCommand Sample.root (event_type event) (PEvent event)]
             else []).
  { intros event Hpass.
    exact (f_equal effects
             (passthrough_event_bubbles
                (env := Sample.chromium) (keys := Sample.keys)
                w 1 0 [7]%nat Sample.nestedA Sample.root 12 0 event
                eq_refl eq_refl Habove eq_refl eq_refl Hpass)). }
  split; (etransitivity; [apply Hfire|reflexivity]); vm_compute;
    repeat first [apply list_elem_of_here | apply list_elem_of_further].
Defined.
